(** * dataio: project layout, path naming and loaders

    A shallow embedding of [src/dataio.py].

    - A Python [str] is a Rocq [string], one character per code point
      (code points below 256).
    - A [pathlib.Path] is an absolute, normalised POSIX path, kept as the
      list of its components with the innermost one first: [/a/b/c] is
      ["c"; "b"; "a"] and [/] is [[]].  With this reading [Path.parent]
      is [tail], [Path.parents] is the list of proper tails, nearest
      first, and [p / name] is [name :: p].
    - The filesystem is a finite map from paths to the kind of entry
      found there; [os.mkdir], [Path.exists], [Path.is_dir] and
      [Path.mkdir] follow POSIX path resolution and CPython's pathlib.
    - Code that raises returns a [result]; code that changes the
      filesystem is a function from the state before to the outcome and
      the state after (an exception keeps the changes made before it).
    - A Python [float] is an IEEE 754 binary64 value ([spec_float]); the
      model is parametrised by [str] on floats.  NumPy enters through its
      conversion functions, parametrised where they leave integers. *)

From stdpp Require Import gmap strings list fin_maps pretty.
From Stdlib Require Import ZArith Ascii String SpecFloat.

Open Scope string_scope.

Set Default Proof Using "Type".

(** ** Python exceptions and results *)

Inductive errno := ENOENT | EEXIST | ENOTDIR.

(** A path: components, innermost first. *)
Abbreviation Path := (list string).

(** The exception classes the module can raise, with their argument.
    [OSError e p] stands for the subclass the interpreter picks from the
    error number ([FileNotFoundError] for [ENOENT], [FileExistsError]
    for [EEXIST], [NotADirectoryError] for [ENOTDIR]) with file name [p];
    [FileNotFoundError msg] is the same class built from a message, as
    [assert_exists] does. *)
Inductive exn :=
| ValueError (msg : string)
| KeyError (arg : string)
| TypeError (msg : string)
| RuntimeError (msg : string)
| FileNotFoundError (msg : string)
| OverflowError (msg : string)
| OSError (e : errno) (filename : Path).

Inductive result (A : Type) :=
| Ok (a : A)
| Err (e : exn).
Arguments Ok {A} a.
Arguments Err {A} e.

Definition is_ok {A} (r : result A) : bool :=
  match r with Ok _ => true | Err _ => false end.

#[global] Instance result_fmap : FMap result := λ A B f r,
  match r with Ok a => Ok (f a) | Err e => Err e end.
#[global] Instance result_ret : MRet result := @Ok.
#[global] Instance result_bind : MBind result := λ A B f r,
  match r with Ok a => f a | Err e => Err e end.

(** ** Strings *)

(** [str(path)] *)
Definition path_str (p : Path) : string :=
  match p with
  | [] => "/"
  | _ => foldr (λ c acc, "/" +:+ c +:+ acc) "" (List.rev p)
  end.

(** [str.upper] on one character: exact on the ASCII characters.  The
    other code points below 256 are left as they are; Python turns some
    of them into a capital above 127, into "SS" or into a code point
    above 255, never into a letter of CEU or YRI, so a string
    upper-cases to CEU or YRI here exactly when it does in Python. *)
Definition upper_ascii (c : ascii) : ascii :=
  let n := nat_of_ascii c in
  if ((97 <=? n)%nat && (n <=? 122)%nat)%bool then ascii_of_nat (n - 32) else c.

(** [s.upper()] *)
Fixpoint upper (s : string) : string :=
  match s with
  | EmptyString => EmptyString
  | String c s' => String (upper_ascii c) (upper s')
  end.

(** Two strings that differ at most in the case of their letters. *)
Fixpoint same_ignoring_case (a b : string) : bool :=
  match a, b with
  | EmptyString, EmptyString => true
  | String c a', String d b' =>
      Ascii.eqb (upper_ascii c) (upper_ascii d) && same_ignoring_case a' b'
  | _, _ => false
  end.

(** [s.replace(".", "_")] *)
Fixpoint replace_dots (s : string) : string :=
  match s with
  | EmptyString => EmptyString
  | String c s' => String (if Ascii.eqb c "." then "_"%char else c) (replace_dots s')
  end.

(** [str(n)] for a Python [int] *)
Definition str_int (n : Z) : string := pretty n.

(** [x in {...}] for a set display of string literals *)
Definition in_set (x : string) (l : list string) : bool := bool_decide (x ∈ l).

(** ** Paths *)

(** [p / name], for a [name] without separator *)
Definition pjoin (p : Path) (name : string) : Path := name :: p.
Notation "p // name" := (pjoin p name) (at level 40, left associativity).

(** [p.parent] *)
Definition parent (p : Path) : Path := tail p.

(** [p.parents]: the ancestors, nearest first, down to the root *)
Fixpoint parents (p : Path) : list Path :=
  match p with
  | [] => []
  | _ :: q => q :: parents q
  end.

(** [p.relative_to(root)]: the components of [p] below [root], innermost
    first; [ValueError] when [p] is neither [root] nor below it. *)
Definition relative_to (p root : Path) : result (list string) :=
  if bool_decide (root `suffix_of` p) then Ok (take (List.length p - List.length root)%nat p)
  else Err (ValueError ("'" +:+ path_str p +:+ "' is not in the subpath of '"
                        +:+ path_str root +:+ "'")).

(** ** The filesystem *)

Inductive kind := File | Dir.

#[global] Instance kind_eq_dec : EqDecision kind.
Proof. solve_decision. Defined.

Abbreviation fs := (gmap Path kind).

(** Path resolution ([stat]): every component but the last must be a
    directory. *)
Fixpoint stat (s : fs) (p : Path) : result kind :=
  match p with
  | [] => Ok Dir
  | _ :: q =>
      match stat s q with
      | Ok Dir => match s !! p with
                  | Some k => Ok k
                  | None => Err (OSError ENOENT p)
                  end
      | Ok File => Err (OSError ENOTDIR p)
      | Err (OSError e _) => Err (OSError e p)
      | Err e => Err e
      end
  end.

(** [p.exists()] *)
Definition exists_ (s : fs) (p : Path) : bool := is_ok (stat s p).

(** [p.is_dir()] *)
Definition is_dir (s : fs) (p : Path) : bool :=
  match stat s p with Ok Dir => true | _ => false end.

(** A regular file stands at the path or at one of its ancestors: the
    states in which the path cannot be, or become, a directory. *)
Fixpoint blocked (s : fs) (p : Path) : bool :=
  match p with
  | [] => false
  | _ :: q => bool_decide (s !! p = Some File) || blocked s q
  end.

(** From [s] to [s']: every entry is kept as it is and every new entry
    is a directory. *)
Definition only_dirs_added (s s' : fs) : Prop :=
  s ⊆ s' ∧ ∀ q, s' !! q = Some File → s !! q = Some File.

(** Stateful code: the outcome and the filesystem afterwards. *)
Definition io (A : Type) : Type := fs → result A * fs.

#[global] Instance io_ret : MRet io := λ A a s, (Ok a, s).
#[global] Instance io_bind : MBind io := λ A B f m s,
  match m s with
  | (Ok a, s') => f a s'
  | (Err e, s') => (Err e, s')
  end.
Definition raise {A} (e : exn) : io A := λ s, (Err e, s).

(** [os.mkdir(p)] *)
Definition os_mkdir (p : Path) : io unit := λ s,
  match p with
  | [] => (Err (OSError EEXIST p), s)
  | _ :: q =>
      match stat s q with
      | Ok Dir => match s !! p with
                  | Some _ => (Err (OSError EEXIST p), s)
                  | None => (Ok (), <[p := Dir]> s)
                  end
      | Ok File => (Err (OSError ENOTDIR p), s)
      | Err (OSError e _) => (Err (OSError e p), s)
      | Err e => (Err e, s)
      end
  end.

(** [Path.mkdir(parents=False, exist_ok=exist_ok)]:
    [os.mkdir]; a [FileNotFoundError] is re-raised; any other [OSError]
    is re-raised unless [exist_ok] holds and the path is a directory. *)
Definition mkdir_single (exist_ok : bool) (p : Path) : io unit := λ s,
  match os_mkdir p s with
  | (Ok u, s') => (Ok u, s')
  | (Err (OSError ENOENT f), s') => (Err (OSError ENOENT f), s')
  | (Err e, s') =>
      if (negb exist_ok || negb (is_dir s' p))%bool then (Err e, s') else (Ok (), s')
  end.

(** [Path.mkdir(parents=True, exist_ok=exist_ok)]: on
    [FileNotFoundError] the parent is made with
    [mkdir(parents=True, exist_ok=True)] and the directory itself with
    [mkdir(parents=False, exist_ok=exist_ok)]. *)
Fixpoint mkdir_parents (exist_ok : bool) (p : Path) : io unit := λ s,
  match os_mkdir p s with
  | (Ok u, s') => (Ok u, s')
  | (Err (OSError ENOENT f), s') =>
      match p with
      | [] => (Err (OSError ENOENT f), s')
      | _ :: q =>
          match mkdir_parents true q s' with
          | (Ok _, s'') => mkdir_single exist_ok p s''
          | (Err e, s'') => (Err e, s'')
          end
      end
  | (Err e, s') =>
      if (negb exist_ok || negb (is_dir s' p))%bool then (Err e, s') else (Ok (), s')
  end.

(** [p.mkdir(parents=..., exist_ok=...)] *)
Definition mkdir (parents_ exist_ok : bool) (p : Path) : io unit :=
  if parents_ then mkdir_parents exist_ok p else mkdir_single exist_ok p.

(** Loops [for x in xs: body(x)] over stateful bodies. *)
Fixpoint for_each {A} (xs : list A) (body : A → io unit) : io unit :=
  match xs with
  | [] => mret ()
  | x :: rest => body x ;; for_each rest body
  end.

(** ** Project root *)

(** [(d / "requirements.txt").exists() or (d / ".git").exists()] *)
Definition has_marker (s : fs) (d : Path) : bool :=
  exists_ s (d // "requirements.txt") || exists_ s (d // ".git").

(** The loop [for parent in cwd.parents: if ...: return parent]. *)
Fixpoint first_marked (s : fs) (ds : list Path) : option Path :=
  match ds with
  | [] => None
  | d :: rest => if has_marker s d then Some d else first_marked s rest
  end.

Definition RootNotFound (cwd : Path) : exn :=
  RuntimeError ("Could not detect repo root from " +:+ path_str cwd +:+ ". "
                +:+ "Expected requirements.txt or .git in a parent directory.").

(** [find_project_root()], with [cwd] the value of [Path.cwd()]. *)
Definition find_project_root (s : fs) (cwd : Path) : result Path :=
  if has_marker s cwd then Ok cwd
  else match first_marked s (parents cwd) with
       | Some d => Ok d
       | None => Err (RootNotFound cwd)
       end.

(** ** Python values *)

(** A Python [float]: a binary64 value, as sign, mantissa and exponent. *)
Definition float := spec_float.

(** The float written [0.1]: the double nearest to one tenth. *)
Definition float_0_1 : float := S754_finite false 7205759403792794 (-56).

(** A number passed as [eps]. *)
Inductive number :=
| PyInt (n : Z)
| PyFloat (x : float).

(** What [json.load] returns. *)
#[warnings="-register-all"] Inductive json :=
| JNull
| JBool (b : bool)
| JInt (n : Z)
| JFloat (x : float)
| JStr (s : string)
| JArr (items : list json)
| JObj (fields : gmap string json).

(** An integer array as [np.array(..., dtype=int)] builds it: the shape
    and the elements in row-major order. *)
Record int_array := { shape : list nat; data : list Z }.

(** A one-dimensional integer array. *)
Definition array1d (zs : list Z) : int_array :=
  {| shape := [List.length zs]; data := zs |}.

(** The dtypes [load_region_npz] converts to. *)
Inductive dtype := np_object | np_int64 | np_int8.

(** Two's complement wrap-around to [w] bits, the C cast NumPy applies
    when an integer array is converted to a narrower integer dtype. *)
Definition wrap (w : Z) (z : Z) : Z :=
  ((z + 2 ^ (w - 1)) mod 2 ^ w - 2 ^ (w - 1))%Z.

(** Integer arrays, as a concrete instance of the array interface used
    below: the dtype tag and the elements. *)
Record int_ndarray := { nd_dtype : dtype; nd_data : list Z }.

(** [a.astype(t)] on an array of integers: never raises. *)
Definition int_astype (a : int_ndarray) (t : dtype) : result int_ndarray :=
  Ok {| nd_dtype := t;
        nd_data := match t with
                   | np_object => nd_data a
                   | np_int64 => wrap 64 <$> nd_data a
                   | np_int8 => wrap 8 <$> nd_data a
                   end |}.

(** ** Further notions *)

(** The array [int_astype] returns. *)
Definition int_cast (t : dtype) (a : int_ndarray) : int_ndarray :=
  {| nd_dtype := t;
     nd_data := match t with
                | np_object => nd_data a
                | np_int64 => wrap 64 <$> nd_data a
                | np_int8 => wrap 8 <$> nd_data a
                end |}.

(** From [s] to [s']: the only entries that differ are new directories
    at paths satisfying [P]. *)
Definition grown_within (P : Path → Prop) (s s' : fs) : Prop :=
  ∀ q, s' !! q = s !! q ∨ (s !! q = None ∧ s' !! q = Some Dir ∧ P q).

(** The string has no occurrence of the character. *)
Fixpoint lacks (c : ascii) (s : string) : bool :=
  match s with
  | EmptyString => true
  | String d s' => negb (Ascii.eqb d c) && lacks c s'
  end.

(** ** Example data *)

(** A project at [/home/proj], marked by its [.git] directory. *)
Definition demo_root : Path := ["proj"; "home"].
Definition demo_fs : fs :=
  {[ ["home"] := Dir; demo_root := Dir; demo_root // ".git" := Dir ]}.

(** The same project with a regular file named [data] in it. *)
Definition data_is_file_fs : fs := <[ demo_root // "data" := File ]> demo_fs.

(** The same project with the genotype directory in place and a file
    in it. *)
Definition populated_fs : fs :=
  <[ demo_root // "data" // "raw" // "hapmap" // "genotypes" // "notes.txt" := File ]>
    (<[ demo_root // "data" // "raw" // "hapmap" // "genotypes" := Dir ]>
       (<[ demo_root // "data" // "raw" // "hapmap" := Dir ]>
          (<[ demo_root // "data" // "raw" := Dir ]>
             (<[ demo_root // "data" := Dir ]> demo_fs)))).

(** The same project with the whole data layout in place, and the
    output directory of method1 for epsilon 1. *)
Definition ready_fs : fs :=
  list_to_map ((λ p, (p, Dir)) <$>
    [ ["home"]; demo_root; demo_root // ".git";
      demo_root // "data";
      demo_root // "data" // "raw";
      demo_root // "data" // "raw" // "hapmap";
      demo_root // "data" // "raw" // "hapmap" // "genotypes";
      demo_root // "data" // "raw" // "hapmap" // "phasing";
      demo_root // "data" // "raw" // "hapmap" // "phasing" // "HapMap3_r2";
      demo_root // "data" // "raw" // "hapmap" // "phasing" // "HapMap3_r2" // "CEU";
      demo_root // "data" // "raw" // "hapmap" // "phasing" // "HapMap3_r2" // "CEU"
        // "UNRELATED";
      demo_root // "data" // "raw" // "hapmap" // "phasing" // "HapMap3_r2_meta";
      demo_root // "data" // "processed";
      demo_root // "data" // "processed" // "hapmap";
      demo_root // "data" // "processed" // "hapmap" // "regions";
      demo_root // "data" // "processed" // "hapmap" // "cohorts";
      demo_root // "data" // "processed" // "hapmap" // "blocks";
      demo_root // "data" // "processed" // "hapmap" // "haplotypes";
      demo_root // "data" // "derived";
      demo_root // "data" // "derived" // "method1";
      demo_root // "data" // "derived" // "method2";
      demo_root // "data" // "derived" // "method3";
      demo_root // "data" // "derived" // "method1" // "eps_1" ]).

(** The same project with the directories [a/b/c] in it. *)
Definition nested_fs : fs :=
  <[ demo_root // "a" // "b" // "c" := Dir ]>
    (<[ demo_root // "a" // "b" := Dir ]> (<[ demo_root // "a" := Dir ]> demo_fs)).

(** The same project next to a file [/etc/hosts]. *)
Definition outside_fs : fs := <[ ["hosts"; "etc"] := File ]> (<[ ["etc"] := Dir ]> demo_fs).

(** [str] on the floats the examples use. *)
Definition demo_float_str (x : float) : string :=
  match x with
  | S754_zero false => "0.0"
  | S754_zero true => "-0.0"
  | S754_infinity false => "inf"
  | S754_infinity true => "-inf"
  | S754_nan => "nan"
  | S754_finite false 7205759403792794 (-56) => "0.1"
  | S754_finite _ _ _ => ""
  end.

(** An archive of integer arrays, with a genotype value out of range. *)
Definition demo_archive : gmap string int_ndarray :=
  {[ "G" := {| nd_dtype := np_int64; nd_data := [0; 2; -1; 300]%Z |};
     "positions" := {| nd_dtype := np_int64; nd_data := [101; 205]%Z |};
     "chrom" := {| nd_dtype := np_int64; nd_data := [2]%Z |} ]}.

Definition demo_archive_path : Path := demo_root // "region.npz".

Definition demo_np_load (path : Path) : result (gmap string int_ndarray) :=
  if bool_decide (path = demo_archive_path) then Ok demo_archive
  else Err (OSError ENOENT path).

(** ** The module *)

Section dataio.

(** [str] on a [float]: digits, a sign, a point, an exponent, [inf] or
    [nan], never a path separator. *)
Context (float_str : float → string).

(** NumPy: its arrays, [a.astype(t)], [np.load(path, allow_pickle=True)]
    as the mapping from field names to arrays, and
    [np.array(v, dtype=int)] on values that are not a flat list of
    integers fitting 64 bits. *)
Context {ndarray : Type} (astype : ndarray → dtype → result ndarray).
Context (np_load : Path → result (gmap string ndarray)).
Context (np_array_other : json → result int_array).

(** [json.load] on the file at a path. *)
Context (read_json : Path → result (gmap string json)).

(** [str(eps)] *)
Definition str (eps : number) : string :=
  match eps with
  | PyInt n => str_int n
  | PyFloat x => float_str x
  end.

(** [PROJECT_ROOT = find_project_root()], evaluated when the module is
    imported. *)
Context (PROJECT_ROOT : Path).

(** *** Canonical data layout *)

Definition DATA_DIR := PROJECT_ROOT // "data".

Definition RAW_DIR := DATA_DIR // "raw" // "hapmap".
Definition RAW_GENOTYPES_DIR := RAW_DIR // "genotypes".
Definition RAW_PHASING_DIR := RAW_DIR // "phasing" // "HapMap3_r2" // "CEU" // "UNRELATED".
Definition RAW_PHASING_META_DIR := RAW_DIR // "phasing" // "HapMap3_r2_meta".

Definition PROC_DIR := DATA_DIR // "processed" // "hapmap".
Definition PROC_REGIONS_DIR := PROC_DIR // "regions".
Definition PROC_COHORTS_DIR := PROC_DIR // "cohorts".
Definition PROC_BLOCKS_DIR := PROC_DIR // "blocks".
Definition PROC_HAPLOTYPES_DIR := PROC_DIR // "haplotypes".

Definition DERIVED_DIR := DATA_DIR // "derived".
Definition DERIVED_METHOD1_DIR := DERIVED_DIR // "method1".
Definition DERIVED_METHOD2_DIR := DERIVED_DIR // "method2".
Definition DERIVED_METHOD3_DIR := DERIVED_DIR // "method3".

(** The list [ensure_dirs] walks. *)
Definition catalog : list Path :=
  [ RAW_GENOTYPES_DIR; RAW_PHASING_DIR; RAW_PHASING_META_DIR;
    PROC_REGIONS_DIR; PROC_COHORTS_DIR; PROC_BLOCKS_DIR; PROC_HAPLOTYPES_DIR;
    DERIVED_METHOD1_DIR; DERIVED_METHOD2_DIR; DERIVED_METHOD3_DIR ].

Definition ensure_dirs : io unit :=
  for_each catalog (λ d, mkdir true true d).

(** *** File path helpers *)

Definition region_npz_path (region_name : string) : Path :=
  PROC_REGIONS_DIR // (region_name +:+ ".npz").

Definition cohorts_json_path : Path :=
  PROC_COHORTS_DIR // "ceu_case_control_test_split.json".

Definition ceu_yri_cohorts_json_path : Path :=
  PROC_COHORTS_DIR // "hapmap_CEU_control_test__YRI_case.json".

Definition InvalidPopulation : exn := ValueError "pop must be one of {'CEU','YRI'}".

Definition genotype_path (pop : string) (chrom : Z) : result Path :=
  let pop := upper pop in
  if negb (in_set pop ["CEU"; "YRI"]) then Err InvalidPopulation
  else Ok (RAW_GENOTYPES_DIR
           // ("genotypes_chr" +:+ str_int chrom +:+ "_" +:+ pop +:+ "_r27_nr.b36_fwd.txt.gz")).

Definition aligned_region_npz_path (pop region_tag other_pop : string) : Path :=
  let pop := upper pop in
  let other_pop := upper other_pop in
  PROC_REGIONS_DIR // (pop +:+ "_" +:+ region_tag +:+ ".common_with_" +:+ other_pop +:+ ".npz").

Definition blocks_json_path (region_name : string) : Path :=
  PROC_BLOCKS_DIR // (region_name +:+ ".blocks.json").

Definition control_haplotypes_path (region_name : string) (phased_compatible : bool) : Path :=
  if phased_compatible
  then PROC_HAPLOTYPES_DIR // (region_name +:+ ".control_haplotypes.phased_compatible.json")
  else PROC_HAPLOTYPES_DIR // (region_name +:+ ".control_haplotypes.json").

Definition maf_reference_path : Path := PROC_DIR // "ceu_maf_reference.npz".

Definition InvalidMethod : exn :=
  ValueError "method must be one of {'method1','method2','method3'}".

Definition method_dir (method : string) (eps : number) : io Path :=
  if negb (in_set method ["method1"; "method2"; "method3"]) then raise InvalidMethod
  else
    let eps_str := replace_dots (str eps) in
    let out := DERIVED_DIR // method // ("eps_" +:+ eps_str) in
    mkdir true true out ;; mret out.

(** *** Loaders *)

(** [if k in out: out[k] = out[k].astype(t)] *)
Definition normalize_field (k : string) (t : dtype)
    (out : gmap string ndarray) : result (gmap string ndarray) :=
  match out !! k with
  | Some a => a' ← astype a t; mret (<[k := a']> out)
  | None => mret out
  end.

(** The loop [for k in [...]: if k in out: out[k] = out[k].astype(object)] *)
Fixpoint normalize_fields (ks : list string) (t : dtype)
    (out : gmap string ndarray) : result (gmap string ndarray) :=
  match ks with
  | [] => mret out
  | k :: rest => out' ← normalize_field k t out; normalize_fields rest t out'
  end.

Definition object_keys : list string :=
  ["sample_ids"; "snp_ids"; "minor_alleles"; "major_alleles";
   "counted_alleles"; "other_alleles"].

Definition load_region_npz (path : Path) : result (gmap string ndarray) :=
  z ← np_load path;
  let out := z in
  out ← normalize_fields object_keys np_object out;
  out ← normalize_field "positions" np_int64 out;
  out ← normalize_field "G" np_int8 out;
  mret out.

(** The dtype [load_region_npz] converts a field to, if any. *)
Definition target_dtype (k : string) : option dtype :=
  if in_set k object_keys then Some np_object
  else if String.eqb k "positions" then Some np_int64
  else if String.eqb k "G" then Some np_int8
  else None.

(** What [load_region_npz] makes of a field of integers. *)
Definition int_loaded (k : string) (a : int_ndarray) : int_ndarray :=
  match target_dtype k with
  | Some t => int_cast t a
  | None => a
  end.

Definition load_cohorts (path : option Path) : result (gmap string json) :=
  let path := match path with None => cohorts_json_path | Some p => p end in
  read_json path.

(** The name of a value's type, as error messages show it. *)
Definition type_name (v : json) : string :=
  match v with
  | JNull => "NoneType" | JBool _ => "bool" | JInt _ => "int" | JFloat _ => "float"
  | JStr _ => "str" | JArr _ => "list" | JObj _ => "dict"
  end.

(** [d[key]] on a [dict] *)
Definition dict_getitem (d : gmap string json) (key : string) : result json :=
  match d !! key with
  | Some v => Ok v
  | None => Err (KeyError key)
  end.

(** [key in v] for a string [key]: key membership in a dict, element
    membership in a list, substring test in a string, [TypeError] on
    the other values. *)
Definition contains (v : json) (key : string) : result bool :=
  match v with
  | JObj d => Ok (bool_decide (is_Some (d !! key)))
  | JArr items =>
      Ok (existsb (λ x, match x with JStr s => String.eqb s key | _ => false end) items)
  | JStr s => Ok (bool_decide (is_Some (index 0 key s)))
  | _ => Err (TypeError ("argument of type '" +:+ type_name v +:+ "' is not iterable"))
  end.

(** [v[key]] for a string [key] *)
Definition getitem (v : json) (key : string) : result json :=
  match v with
  | JObj d => dict_getitem d key
  | JArr _ => Err (TypeError "list indices must be integers or slices, not str")
  | JStr _ => Err (TypeError "string indices must be integers, not 'str'")
  | _ => Err (TypeError ("'" +:+ type_name v +:+ "' object is not subscriptable"))
  end.

(** A JSON integer that fits the 64-bit [int] dtype. *)
Definition as_int64 (v : json) : option Z :=
  match v with
  | JInt n => if bool_decide (- 2 ^ 63 ≤ n < 2 ^ 63)%Z then Some n else None
  | _ => None
  end.

(** [np.array(v, dtype=int)]: a flat list of integers gives the
    one-dimensional array of these integers. *)
Definition np_array_int (v : json) : result int_array :=
  match v with
  | JArr items =>
      match mapM as_int64 items with
      | Some zs => Ok (array1d zs)
      | None => np_array_other v
      end
  | _ => np_array_other v
  end.

Definition InvalidGroup : exn := ValueError "group must be one of {'case','control','test'}".

Definition MissingIndices (group key : string) : exn :=
  KeyError ("cohorts['" +:+ group +:+ "'] is missing '" +:+ key +:+ "'. "
            +:+ "Regenerate the cohort split with indices saved.").

Definition get_group_indices (cohorts : gmap string json) (group : string)
    : result int_array :=
  if negb (in_set group ["case"; "control"; "test"]) then Err InvalidGroup
  else
    let key := "indices_in_ceu_matrix" in
    rec ← dict_getitem cohorts group;
    present ← contains rec key;
    if negb present then Err (MissingIndices group key)
    else
      rec ← dict_getitem cohorts group;
      v ← getitem rec key;
      np_array_int v.

(** *** Quick checks *)

(** What [assert_exists] prints, line by line. *)
Inductive line :=
| Banner (label : string)
| Present (rel : list string)
| Missing (rel : list string).

Definition MissingRequiredFiles : exn :=
  FileNotFoundError "One or more required files are missing. See ❌ lines above.".

(** The loop of [assert_exists]: the final value of [ok], or the
    exception that ended the loop, and the lines printed. *)
Fixpoint check_paths (s : fs) (paths : list Path) (ok : bool) : result bool * list line :=
  match paths with
  | [] => (Ok ok, [])
  | p :: rest =>
      if exists_ s p then
        match relative_to p PROJECT_ROOT with
        | Ok rel => let '(r, out) := check_paths s rest ok in (r, Present rel :: out)
        | Err e => (Err e, [])
        end
      else
        match relative_to p PROJECT_ROOT with
        | Ok rel => let '(r, out) := check_paths s rest false in (r, Missing rel :: out)
        | Err e => (Err e, [])
        end
  end.

Definition assert_exists (s : fs) (paths : list Path) (label : string)
    : result unit * list line :=
  let '(r, out) := check_paths s paths true in
  (ok ← r; if negb ok then Err MissingRequiredFiles else mret (),
   Banner label :: out).

(** The line [assert_exists] prints for a path at or below the
    project root. *)
Definition report_line (s : fs) (p : Path) : line :=
  (if exists_ s p then Present else Missing)
    (take (List.length p - List.length PROJECT_ROOT)%nat p).

(** ** Properties *)

(** *** Strings and paths *)

Lemma in_set_true (x : string) (l : list string) : in_set x l = true ↔ x ∈ l.
Proof. unfold in_set. apply bool_decide_eq_true. Qed.

Lemma in_set_false (x : string) (l : list string) : in_set x l = false ↔ x ∉ l.
Proof. unfold in_set. apply bool_decide_eq_false. Qed.

Lemma append_nil_r (a : string) : a +:+ "" = a.
Proof.
  induction a as [|c a IH]; [done|].
  change (String c (a +:+ "") = String c a). by rewrite IH.
Qed.

Lemma append_assoc (a b c : string) : a +:+ (b +:+ c) = (a +:+ b) +:+ c.
Proof.
  induction a as [|x a IH]; [done|].
  change (String x (a +:+ (b +:+ c)) = String x ((a +:+ b) +:+ c)). by rewrite IH.
Qed.

Lemma foldr_sep_append (l : list string) (z : string) :
  foldr (λ c acc, "/" +:+ c +:+ acc) z l = foldr (λ c acc, "/" +:+ c +:+ acc) "" l +:+ z.
Proof.
  induction l as [|x l IH]; [done|].
  simpl. rewrite IH. by rewrite <- !append_assoc.
Qed.

(** [str(p / name)] is [str(p)], a separator and the name, below the
    root directory. *)
Lemma path_str_pjoin (p : Path) (name : string) :
  p ≠ [] → path_str (p // name) = path_str p +:+ "/" +:+ name.
Proof.
  intros Hp. unfold pjoin. destruct p as [|c q]; [done|].
  unfold path_str. change (List.rev (name :: c :: q)) with (List.rev (c :: q) ++ [name])%list.
  rewrite foldr_app, foldr_sep_append. simpl foldr at 2.
  by rewrite append_nil_r.
Qed.

(** *** Path resolution *)

(** The four outcomes of path resolution. *)
Lemma stat_cases (s : fs) (p : Path) :
  (stat s p = Ok Dir ∧ blocked s p = false)
  ∨ (stat s p = Ok File ∧ blocked s p = true)
  ∨ stat s p = Err (OSError ENOENT p)
  ∨ (stat s p = Err (OSError ENOTDIR p) ∧ blocked s p = true).
Proof.
  induction p as [|c q IH]; [by left|].
  cbn [stat blocked]. destruct IH as [[-> Hb]|[[-> Hb]|[->|[-> Hb]]]]; rewrite ?Hb.
  - destruct (s !! (c :: q)) as [[]|] eqn:Hl; rewrite ?Hl.
    + right; left. by rewrite bool_decide_eq_true_2.
    + left. by rewrite bool_decide_eq_false_2.
    + by right; right; left.
  - right; right; right. by rewrite orb_true_r.
  - by right; right; left.
  - right; right; right. by rewrite orb_true_r.
Qed.

Lemma stat_lookup (s : fs) (c : string) (q : Path) (k : kind) :
  stat s (c :: q) = Ok k → s !! (c :: q) = Some k ∧ stat s q = Ok Dir.
Proof.
  cbn [stat]. destruct (stat s q) as [[]|[]]; try done.
  by destruct (s !! (c :: q)); intros [=]; subst.
Qed.

Lemma stat_mono (s s' : fs) (p : Path) (k : kind) :
  s ⊆ s' → stat s p = Ok k → stat s' p = Ok k.
Proof.
  intros Hsub. revert k. induction p as [|c q IH]; intros k; [done|].
  intros [Hl Hq]%stat_lookup. cbn [stat]. rewrite (IH _ Hq).
  by rewrite (lookup_weaken _ _ _ _ Hl Hsub).
Qed.

Lemma is_dir_stat (s : fs) (p : Path) : is_dir s p = true ↔ stat s p = Ok Dir.
Proof. unfold is_dir. by destruct (stat s p) as [[]|]. Qed.

Lemma is_dir_mono (s s' : fs) (p : Path) :
  s ⊆ s' → is_dir s p = true → is_dir s' p = true.
Proof. rewrite !is_dir_stat. apply stat_mono. Qed.

Lemma suffix_cons_cases (q p : Path) (c : string) :
  q `suffix_of` c :: p → q = c :: p ∨ q `suffix_of` p.
Proof.
  destruct q as [|x q]; [right; apply suffix_nil|]. apply suffix_cons_inv.
Qed.

(** A directory's ancestors are directories. *)
Lemma is_dir_suffix (s : fs) (p q : Path) :
  q `suffix_of` p → is_dir s p = true → is_dir s q = true.
Proof.
  rewrite !is_dir_stat. induction p as [|c p IH]; intros Hsuf Hp.
  - by apply suffix_nil_inv in Hsuf as ->.
  - apply suffix_cons_cases in Hsuf as [->|Hsuf]; [done|].
    apply IH; [done|]. by apply stat_lookup in Hp as [_ ?].
Qed.

(** *** Directory creation *)

Lemma only_dirs_added_refl (s : fs) : only_dirs_added s s.
Proof. by split. Qed.

Lemma only_dirs_added_trans (s1 s2 s3 : fs) :
  only_dirs_added s1 s2 → only_dirs_added s2 s3 → only_dirs_added s1 s3.
Proof. intros [? H1] [? H2]. split; [by etrans|]. intros q Hq. eauto. Qed.

Lemma only_dirs_added_insert (s : fs) (p : Path) :
  s !! p = None → only_dirs_added s (<[p := Dir]> s).
Proof.
  intros Hp. split; [by apply insert_subseteq|].
  intros q. destruct (decide (p = q)) as [->|Hne].
  - by rewrite lookup_insert_eq.
  - by rewrite lookup_insert_ne.
Qed.

Lemma blocked_only_dirs_added (s s' : fs) (p : Path) :
  only_dirs_added s s' → blocked s p = false → blocked s' p = false.
Proof.
  intros [_ Hf]. induction p as [|c q IH]; [done|].
  cbn [blocked]. intros [Hp Hq]%orb_false_elim. rewrite (IH Hq), orb_false_r.
  apply bool_decide_eq_false in Hp. apply bool_decide_eq_false. eauto.
Qed.

(** [mkdir(parents=True, exist_ok=True)] on a directory changes
    nothing. *)
Lemma mkdir_parents_is_dir (s : fs) (p : Path) :
  is_dir s p = true → mkdir_parents true p s = (Ok (), s).
Proof.
  intros Hd. destruct p as [|c q]; cbn [mkdir_parents os_mkdir].
  - by rewrite Hd.
  - pose proof Hd as [Hl Hq]%is_dir_stat%stat_lookup.
    rewrite Hq, Hl. by rewrite Hd.
Qed.

(** [mkdir(parents=False, exist_ok=True)] below a directory, where no
    regular file has the name. *)
Lemma mkdir_single_ok (s : fs) (c : string) (q : Path) :
  stat s q = Ok Dir → s !! (c :: q) ≠ Some File →
  ∃ s', mkdir_single true (c :: q) s = (Ok (), s')
        ∧ only_dirs_added s s' ∧ is_dir s' (c :: q) = true.
Proof.
  intros Hq Hp. unfold mkdir_single. cbn [os_mkdir]. rewrite Hq.
  destruct (s !! (c :: q)) as [[]|] eqn:Hl; [done| |].
  - assert (is_dir s (c :: q) = true) as Hd.
    { apply is_dir_stat. cbn [stat]. by rewrite Hq, Hl. }
    rewrite Hd. eauto using only_dirs_added_refl.
  - eexists. split; [done|]. split; [by apply only_dirs_added_insert|].
    apply is_dir_stat. cbn [stat].
    rewrite (stat_mono s _ q Dir) by (by apply insert_subseteq || done).
    by rewrite lookup_insert_eq.
Qed.

(** [mkdir(parents=True, exist_ok=True)] succeeds when no regular file
    is in the way: the path becomes a directory, nothing else changes
    but for the directories added. *)
Lemma mkdir_parents_ok (s : fs) (p : Path) :
  blocked s p = false →
  ∃ s', mkdir_parents true p s = (Ok (), s')
        ∧ only_dirs_added s s' ∧ is_dir s' p = true.
Proof.
  revert s. induction p as [|c q IH]; intros s Hb.
  - exists s. eauto using only_dirs_added_refl.
  - cbn [blocked] in Hb. apply orb_false_elim in Hb as [Hp Hq].
    apply bool_decide_eq_false in Hp.
    destruct (stat_cases s q) as [[Hs _]|[[_ ?]|[Hs|[_ ?]]]]; [|congruence| |congruence].
    + destruct (mkdir_single_ok s c q Hs Hp) as (s' & Hm & ? & ?).
      exists s'. split; [|done]. revert Hm. unfold mkdir_single.
      cbn [mkdir_parents os_mkdir]. rewrite Hs.
      by destruct (s !! (c :: q)).
    + destruct (IH s Hq) as (s1 & Hm1 & Hg1 & Hd1).
      destruct (mkdir_single_ok s1 c q) as (s2 & Hm2 & Hg2 & Hd2).
      { by apply is_dir_stat. }
      { intros Hf. by apply Hg1 in Hf. }
      exists s2. split; [|eauto using only_dirs_added_trans].
      cbn [mkdir_parents os_mkdir]. rewrite Hs. by rewrite Hm1.
Qed.

(** ... and fails when one is, with the [OSError] of the system call. *)
Lemma mkdir_parents_blocked (s : fs) (p : Path) :
  blocked s p = true →
  ∃ e f s', mkdir_parents true p s = (Err (OSError e f), s') ∧ only_dirs_added s s'.
Proof.
  revert s. induction p as [|c q IH]; intros s Hb; [done|].
  cbn [blocked] in Hb.
  destruct (stat_cases s q) as [[Hs Hq]|[[Hs _]|[Hs|[Hs _]]]].
  - rewrite Hq, orb_false_r in Hb. apply bool_decide_eq_true in Hb.
    exists EEXIST, (c :: q), s. split; [|apply only_dirs_added_refl].
    cbn [mkdir_parents os_mkdir]. rewrite Hs, Hb.
    unfold is_dir. cbn [stat]. by rewrite Hs, Hb.
  - exists ENOTDIR, (c :: q), s. split; [|apply only_dirs_added_refl].
    cbn [mkdir_parents os_mkdir]. rewrite Hs.
    unfold is_dir. cbn [stat]. by rewrite Hs.
  - cbn [mkdir_parents os_mkdir]. rewrite Hs.
    destruct (blocked s q) eqn:Hq.
    + destruct (IH s Hq) as (e & f & s' & -> & ?). eauto.
    + rewrite orb_false_r in Hb. apply bool_decide_eq_true in Hb.
      destruct (mkdir_parents_ok s q Hq) as (s1 & -> & Hg1 & Hd1).
      exists EEXIST, (c :: q), s1. split; [|done].
      apply is_dir_stat in Hd1. destruct Hg1 as [Hsub _].
      pose proof (lookup_weaken _ _ _ _ Hb Hsub) as Hb1.
      unfold mkdir_single. cbn [os_mkdir]. rewrite Hd1, Hb1.
      unfold is_dir. cbn [stat]. by rewrite Hd1, Hb1.
  - exists ENOTDIR, (c :: q), s. split; [|apply only_dirs_added_refl].
    cbn [mkdir_parents os_mkdir]. rewrite Hs.
    unfold is_dir. cbn [stat]. by rewrite Hs.
Qed.

Lemma blocked_mono (s s' : fs) (p : Path) :
  s ⊆ s' → blocked s p = true → blocked s' p = true.
Proof.
  intros Hsub. induction p as [|c q IH]; [done|].
  cbn [blocked]. intros [Hp|Hq]%orb_true_iff.
  - apply bool_decide_eq_true in Hp.
    by rewrite (bool_decide_eq_true_2 _ (lookup_weaken _ _ _ _ Hp Hsub)).
  - by rewrite (IH Hq), orb_true_r.
Qed.

Lemma io_bind_ok {A B} (m : io A) (f : A → io B) (s s' : fs) (a : A) :
  m s = (Ok a, s') → (m ≫= f) s = f a s'.
Proof. unfold mbind, io_bind. by intros ->. Qed.

Lemma io_bind_err {A B} (m : io A) (f : A → io B) (s s' : fs) (e : exn) :
  m s = (Err e, s') → (m ≫= f) s = (Err e, s').
Proof. unfold mbind, io_bind. by intros ->. Qed.

(** The loop of [ensure_dirs], over any list of directories. *)
Lemma for_each_mkdir_ok (ds : list Path) (s : fs) :
  Forall (λ d, blocked s d = false) ds →
  ∃ s', for_each ds (mkdir true true) s = (Ok (), s')
        ∧ only_dirs_added s s' ∧ Forall (λ d, is_dir s' d = true) ds.
Proof.
  revert s. induction ds as [|d ds IH]; intros s Hb.
  - exists s. eauto using only_dirs_added_refl.
  - apply Forall_cons in Hb as [Hd Hds].
    destruct (mkdir_parents_ok s d Hd) as (s1 & Hm1 & Hg1 & Hd1).
    destruct (IH s1) as (s2 & Hm2 & Hg2 & Hd2).
    { eapply Forall_impl; [exact Hds|]. intros p. by apply blocked_only_dirs_added. }
    exists s2. split; [|split; [by eapply only_dirs_added_trans|]].
    + cbn [for_each]. by rewrite (io_bind_ok _ _ s s1 ()).
    + apply Forall_cons. split; [|done].
      destruct Hg2 as [Hsub _]. by eapply is_dir_mono.
Qed.

Lemma for_each_mkdir_fixed (ds : list Path) (s : fs) :
  Forall (λ d, is_dir s d = true) ds →
  for_each ds (mkdir true true) s = (Ok (), s).
Proof.
  induction ds as [|d ds IH]; [done|]. intros [Hd Hds]%Forall_cons.
  cbn [for_each]. rewrite (io_bind_ok _ _ s s ()); [by apply IH|].
  by apply mkdir_parents_is_dir.
Qed.

Lemma for_each_mkdir_blocked (ds : list Path) (s : fs) :
  Exists (λ d, blocked s d = true) ds →
  ∃ e f s', for_each ds (mkdir true true) s = (Err (OSError e f), s')
            ∧ only_dirs_added s s'.
Proof.
  revert s. induction ds as [|d ds IH]; intros s Hb; [by apply Exists_nil in Hb|].
  cbn [for_each]. destruct (blocked s d) eqn:Hd.
  - destruct (mkdir_parents_blocked s d Hd) as (e & f & s' & Hm & Hg).
    exists e, f, s'. split; [|done]. by apply io_bind_err.
  - apply Exists_cons in Hb as [Hb|Hb]; [congruence|].
    destruct (mkdir_parents_ok s d Hd) as (s1 & Hm1 & Hg1 & _).
    destruct (IH s1) as (e & f & s2 & Hm2 & Hg2).
    { eapply Exists_impl; [exact Hb|]. intros p. apply blocked_mono, Hg1. }
    exists e, f, s2. split; [|by eapply only_dirs_added_trans].
    by rewrite (io_bind_ok _ _ s s1 ()).
Qed.

(** The two outcomes of [mkdir(parents=True, exist_ok=True)]. *)
Lemma mkdir_outcome (s : fs) (p : Path) :
  (blocked s p = false
   ∧ ∃ s', mkdir true true p s = (Ok (), s') ∧ only_dirs_added s s' ∧ is_dir s' p = true)
  ∨ (blocked s p = true
     ∧ ∃ e f s', mkdir true true p s = (Err (OSError e f), s') ∧ only_dirs_added s s').
Proof.
  destruct (blocked s p) eqn:Hb; [right|left]; (split; [done|]).
  - by apply mkdir_parents_blocked.
  - by apply mkdir_parents_ok.
Qed.

(** With an accepted method name, [method_dir] is the [mkdir] of the
    directory it names. *)
Lemma method_dir_valid (method : string) (eps : number) :
  in_set method ["method1"; "method2"; "method3"] = true →
  method_dir method eps
  = (mkdir true true (DERIVED_DIR // method // ("eps_" +:+ replace_dots (str eps)))
     ;; mret (DERIVED_DIR // method // ("eps_" +:+ replace_dots (str eps)))).
Proof. intros Hm. unfold method_dir. by rewrite Hm. Qed.

Lemma method_dir_ok (method : string) (eps : number) (s : fs) :
  in_set method ["method1"; "method2"; "method3"] = true →
  blocked s (DERIVED_DIR // method // ("eps_" +:+ replace_dots (str eps))) = false →
  ∃ s', method_dir method eps s
        = (Ok (DERIVED_DIR // method // ("eps_" +:+ replace_dots (str eps))), s')
        ∧ only_dirs_added s s'
        ∧ is_dir s' (DERIVED_DIR // method // ("eps_" +:+ replace_dots (str eps))) = true.
Proof.
  intros Hm Hb. rewrite (method_dir_valid _ _ Hm).
  destruct (mkdir_outcome s (DERIVED_DIR // method // ("eps_" +:+ replace_dots (str eps))))
    as [[_ (s' & Hmk & Hg & Hd)]|[? _]]; [|congruence].
  exists s'. split; [|done]. by rewrite (io_bind_ok _ _ s s' ()).
Qed.

Lemma method_dir_err (method : string) (eps : number) (s s' : fs) (e : exn) :
  in_set method ["method1"; "method2"; "method3"] = true →
  method_dir method eps s = (Err e, s') →
  blocked s (DERIVED_DIR // method // ("eps_" +:+ replace_dots (str eps))) = true
  ∧ only_dirs_added s s' ∧ ∃ n f, e = OSError n f.
Proof.
  intros Hm. rewrite (method_dir_valid _ _ Hm).
  destruct (mkdir_outcome s (DERIVED_DIR // method // ("eps_" +:+ replace_dots (str eps))))
    as [[_ (s1 & Hmk & _)]|[Hb (n & f & s1 & Hmk & Hg)]].
  - by rewrite (io_bind_ok _ _ s s1 ()).
  - rewrite (io_bind_err _ _ s s1 _ Hmk). intros [= <- <-]. eauto.
Qed.

Lemma method_dir_returns (method : string) (eps : number) (s s' : fs) (p : Path) :
  in_set method ["method1"; "method2"; "method3"] = true →
  method_dir method eps s = (Ok p, s') →
  p = DERIVED_DIR // method // ("eps_" +:+ replace_dots (str eps))
  ∧ only_dirs_added s s' ∧ is_dir s' p = true.
Proof.
  intros Hm. rewrite (method_dir_valid _ _ Hm).
  destruct (mkdir_outcome s (DERIVED_DIR // method // ("eps_" +:+ replace_dots (str eps))))
    as [[_ (s1 & Hmk & Hg & Hd)]|[Hb (n & f & s1 & Hmk & Hg)]].
  - rewrite (io_bind_ok _ _ s s1 () Hmk). by intros [= <- <-].
  - by rewrite (io_bind_err _ _ s s1 _ Hmk).
Qed.

(** *** Letter case *)

Lemma same_ignoring_case_upper (a b : string) :
  same_ignoring_case a b = true → upper a = upper b.
Proof.
  revert b. induction a as [|c a IH]; intros [|d b]; try done.
  cbn [same_ignoring_case upper]. intros [Hc Hab]%andb_true_iff.
  apply Ascii.eqb_eq in Hc. by rewrite Hc, (IH b Hab).
Qed.

(** *** Root resolution *)

Lemma first_marked_Some (s : fs) (ds : list Path) (d : Path) :
  first_marked s ds = Some d
  ↔ ∃ i, ds !! i = Some d ∧ has_marker s d = true
         ∧ ∀ j d', (j < i)%nat → ds !! j = Some d' → has_marker s d' = false.
Proof.
  induction ds as [|d0 ds IH]; cbn [first_marked].
  - split; [done|]. by intros (i & ? & _).
  - destruct (has_marker s d0) eqn:H0.
    + split.
      * intros [= <-]. exists 0%nat. split; [done|]. split; [done|]. lia.
      * intros ([|i] & Hi & Hd & Hlt).
        -- by injection Hi as ->.
        -- specialize (Hlt 0%nat d0). rewrite Hlt in H0; [done|lia|done].
    + rewrite IH. split.
      * intros (i & Hi & Hd & Hlt). exists (S i). split; [done|]. split; [done|].
        intros [|j] d' Hj Hl; [by injection Hl as <-|].
        apply (Hlt j); [lia|done].
      * intros ([|i] & Hi & Hd & Hlt).
        -- injection Hi as ->. congruence.
        -- exists i. split; [done|]. split; [done|].
           intros j d' Hj Hl. apply (Hlt (S j)); [lia|done].
Qed.

Lemma first_marked_None (s : fs) (ds : list Path) :
  first_marked s ds = None ↔ Forall (λ d, has_marker s d = false) ds.
Proof.
  induction ds as [|d0 ds IH]; cbn [first_marked]; [done|].
  rewrite Forall_cons. destruct (has_marker s d0).
  - split; [done|]. by intros [? _].
  - rewrite IH. split; [done|]. by intros [_ ?].
Qed.

(** The test on the working directory and the loop over its ancestors
    are one search, nearest first. *)
Lemma find_project_root_search (s : fs) (cwd : Path) :
  find_project_root s cwd
  = match first_marked s (cwd :: parents cwd) with
    | Some d => Ok d
    | None => Err (RootNotFound cwd)
    end.
Proof. unfold find_project_root. cbn [first_marked]. by destruct (has_marker s cwd). Qed.

(** *** Cohort documents *)

Lemma mapM_as_int64 (zs : list Z) :
  Forall (λ z, - 2 ^ 63 ≤ z < 2 ^ 63)%Z zs → mapM as_int64 (JInt <$> zs) = Some zs.
Proof.
  induction 1 as [|z zs Hz _ IH]; [done|].
  cbn [fmap list_fmap mapM as_int64]. fold (JInt <$> zs). rewrite IH.
  by rewrite bool_decide_eq_true_2.
Qed.

(** The lookups of [get_group_indices] on a group whose record is an
    object. *)
Lemma get_group_indices_object (cohorts : gmap string json) (group : string)
    (rec : gmap string json) :
  in_set group ["case"; "control"; "test"] = true →
  cohorts !! group = Some (JObj rec) →
  get_group_indices cohorts group
  = match rec !! "indices_in_ceu_matrix" with
    | Some v => np_array_int v
    | None => Err (MissingIndices group "indices_in_ceu_matrix")
    end.
Proof.
  intros Hg Hc. unfold get_group_indices, dict_getitem. rewrite Hg, Hc.
  cbn [negb mbind result_bind contains getitem]. unfold dict_getitem.
  destruct (rec !! "indices_in_ceu_matrix") as [v|] eqn:Hk.
  - by rewrite bool_decide_eq_true_2.
  - rewrite bool_decide_eq_false_2; [done|]. by intros [? ?].
Qed.

(** *** Archives *)

(** The conversion loop over distinct keys: the fields named are
    converted where present, the others are kept, none is added. *)
Lemma normalize_fields_ok (ks : list string) (t : dtype) (z out : gmap string ndarray) :
  NoDup ks →
  normalize_fields ks t z = Ok out →
  ∀ k, match z !! k with
       | None => out !! k = None
       | Some a => if bool_decide (k ∈ ks)
                   then ∃ a', astype a t = Ok a' ∧ out !! k = Some a'
                   else out !! k = Some a
       end.
Proof.
  intros Hnd. revert z. induction Hnd as [|k0 ks Hk0 Hnd IH]; intros z.
  - intros [= <-] k. by destruct (z !! k).
  - cbn [normalize_fields]. unfold normalize_field.
    destruct (z !! k0) as [a0|] eqn:Hz0; cbn [mbind result_bind mret result_ret].
    + destruct (astype a0 t) as [a0'|e] eqn:Ha0; [|done].
      intros Hr k. specialize (IH _ Hr k).
      destruct (decide (k = k0)) as [->|Hne].
      * rewrite lookup_insert_eq in IH. rewrite Hz0.
        rewrite bool_decide_eq_false_2 in IH by done.
        rewrite bool_decide_eq_true_2 by left. eauto.
      * rewrite lookup_insert_ne in IH by done.
        destruct (z !! k); [|done].
        rewrite (bool_decide_ext (k ∈ k0 :: ks) (k ∈ ks)); [done|].
        rewrite elem_of_cons. split; [intros [?|?]; [congruence|done]|by right].
    + intros Hr k. specialize (IH _ Hr k).
      destruct (decide (k = k0)) as [->|Hne].
      * by rewrite Hz0 in *.
      * destruct (z !! k); [|done].
        rewrite (bool_decide_ext (k ∈ k0 :: ks) (k ∈ ks)); [done|].
        rewrite elem_of_cons. split; [intros [?|?]; [congruence|done]|by right].
Qed.

(** The loop fails only with the error of a conversion that fails. *)
Lemma normalize_fields_err (ks : list string) (t : dtype) (z : gmap string ndarray)
    (e : exn) :
  NoDup ks →
  normalize_fields ks t z = Err e →
  ∃ k a, k ∈ ks ∧ z !! k = Some a ∧ astype a t = Err e.
Proof.
  intros Hnd. revert z. induction Hnd as [|k0 ks Hk0 Hnd IH]; intros z; [done|].
  cbn [normalize_fields]. unfold normalize_field.
  destruct (z !! k0) as [a0|] eqn:Hz0; cbn [mbind result_bind mret result_ret].
  - destruct (astype a0 t) as [a0'|e'] eqn:Ha0.
    + intros (k & a & Hk & Hl & Ha)%IH. exists k, a.
      rewrite lookup_insert_ne in Hl by (by intros ->).
      split; [by right|done].
    + intros [= ->]. exists k0, a0. split; [by left|done].
  - intros (k & a & Hk & Hl & Ha)%IH. exists k, a. split; [by right|done].
Qed.

Lemma normalize_field_fields (k : string) (t : dtype) (z : gmap string ndarray) :
  normalize_field k t z = normalize_fields [k] t z.
Proof.
  cbn [normalize_fields]. by destruct (normalize_field k t z).
Qed.

(** [load_region_npz] is three conversion loops in a row. *)
Lemma load_region_npz_steps (path : Path) (z : gmap string ndarray) :
  np_load path = Ok z →
  load_region_npz path
  = match normalize_fields object_keys np_object z with
    | Ok o1 => match normalize_fields ["positions"] np_int64 o1 with
               | Ok o2 => normalize_fields ["G"] np_int8 o2
               | Err e => Err e
               end
    | Err e => Err e
    end.
Proof.
  intros Hz. unfold load_region_npz. rewrite Hz.
  cbn [mbind result_bind mret result_ret].
  destruct (normalize_fields object_keys np_object z) as [o1|];
    cbn [mbind result_bind mret result_ret]; [|done].
  rewrite <- (normalize_field_fields "positions").
  destruct (normalize_field "positions" np_int64 o1) as [o2|];
    cbn [mbind result_bind mret result_ret]; [|done].
  rewrite <- (normalize_field_fields "G").
  by destruct (normalize_field "G" np_int8 o2).
Qed.

Lemma target_dtype_object (k : string) : k ∈ object_keys → target_dtype k = Some np_object.
Proof. intros Hk. unfold target_dtype. by rewrite (proj2 (in_set_true _ _) Hk). Qed.

(** *** Existence checks *)

Lemma forallb_false_Exists {A} (f : A → bool) (l : list A) :
  forallb f l = false ↔ Exists (λ x, f x = false) l.
Proof.
  induction l as [|x l IH]; cbn [forallb].
  - split; [done|]. by intros ?%Exists_nil.
  - by rewrite Exists_cons, andb_false_iff, IH.
Qed.

Lemma forallb_true_Forall {A} (f : A → bool) (l : list A) :
  forallb f l = true ↔ Forall (λ x, f x = true) l.
Proof.
  induction l as [|x l IH]; cbn [forallb].
  - split; [by constructor|done].
  - by rewrite Forall_cons, andb_true_iff, IH.
Qed.

Lemma check_paths_under_root (s : fs) (paths : list Path) (ok : bool) :
  Forall (λ p, PROJECT_ROOT `suffix_of` p) paths →
  check_paths s paths ok
  = (Ok (ok && forallb (exists_ s) paths), report_line s <$> paths).
Proof.
  intros Hall. revert ok. induction Hall as [|p paths Hp _ IH]; intros ok.
  - cbn. by rewrite andb_true_r.
  - cbn [check_paths forallb fmap list_fmap]. unfold relative_to, report_line.
    rewrite (bool_decide_eq_true_2 _ Hp).
    destruct (exists_ s p); rewrite IH; [done|].
    by rewrite andb_false_r.
Qed.

(** *** The claims *)

(** C6 (amended).  [ensure_dirs] is idempotent: from every filesystem
    state in which no regular file stands at a catalog directory or at
    one of its ancestors, it succeeds and leaves every catalog
    directory, with all its ancestors, as a directory; what was there
    before is kept as it was (files included) and only directories are
    added; a second call succeeds and leaves the state unchanged. *)
Theorem ensure_dirs_idempotent (s : fs) :
  Forall (λ d, blocked s d = false) catalog →
  ∃ s', ensure_dirs s = (Ok (), s')
        ∧ (∀ d q, d ∈ catalog → q `suffix_of` d → is_dir s' q = true)
        ∧ only_dirs_added s s'
        ∧ ensure_dirs s' = (Ok (), s').
Proof.
  intros Hb. destruct (for_each_mkdir_ok catalog s Hb) as (s' & Hm & Hg & Hd).
  exists s'. split; [done|]. split; [|split; [done|]].
  - intros d q Hin Hsuf. apply (is_dir_suffix s' d q Hsuf).
    by apply (proj1 (Forall_forall _ _) Hd).
  - by apply for_each_mkdir_fixed.
Qed.

(** C7.  A method name outside {method1, method2, method3} makes
    [method_dir] fail with [InvalidMethod] whatever the epsilon, with
    the filesystem exactly as it was: the test precedes everything
    else.  With an accepted name, every return hands back the directory
    <derived-dir>/<method>/eps_<...>, which is by then a directory, as
    are all its ancestors, nothing else having changed but for the
    directories added; and the call does return it, created, whenever
    no regular file is in the way. *)
Theorem method_dir_validates_first (method : string) (eps : number) (s : fs) :
  (in_set method ["method1"; "method2"; "method3"] = false →
   method_dir method eps s = (Err InvalidMethod, s))
  ∧ (in_set method ["method1"; "method2"; "method3"] = true →
     (∀ p s', method_dir method eps s = (Ok p, s') →
              p = DERIVED_DIR // method // ("eps_" +:+ replace_dots (str eps))
              ∧ only_dirs_added s s'
              ∧ ∀ q, q `suffix_of` DERIVED_DIR // method // ("eps_" +:+ replace_dots (str eps)) →
                     is_dir s' q = true)
     ∧ (blocked s (DERIVED_DIR // method // ("eps_" +:+ replace_dots (str eps))) = false →
        ∃ s', method_dir method eps s
              = (Ok (DERIVED_DIR // method // ("eps_" +:+ replace_dots (str eps))), s')
              ∧ ∀ q, q `suffix_of` DERIVED_DIR // method // ("eps_" +:+ replace_dots (str eps)) →
                     is_dir s' q = true)).
Proof.
  split.
  - intros Hm. unfold method_dir. by rewrite Hm.
  - intros Hm. split.
    + intros p s' Hr. destruct (method_dir_returns _ _ _ _ _ Hm Hr) as (-> & Hg & Hd).
      split; [done|]. split; [done|]. intros q Hq.
      by apply (is_dir_suffix s' (DERIVED_DIR // method // ("eps_" +:+ replace_dots (str eps))) q).
    + intros Hb. destruct (method_dir_ok _ _ _ Hm Hb) as (s' & Hr & _ & Hd).
      exists s'. split; [done|]. intros q Hq.
      by apply (is_dir_suffix s' (DERIVED_DIR // method // ("eps_" +:+ replace_dots (str eps))) q).
Qed.

(** C2.  With a method name in {method1, method2, method3} and any
    epsilon, the path [method_dir] returns is
    <derived-dir>/<method>/eps_<str(eps) with dots replaced by
    underscores>, and it is returned whenever the directory can be
    made; so method_dir("method1", 0.1) gives .../method1/eps_0_1 and
    method_dir("method1", 10) gives .../method1/eps_10. *)
Theorem method_dir_path (method : string) (eps : number) (s : fs) :
  in_set method ["method1"; "method2"; "method3"] = true →
  (∀ p s', method_dir method eps s = (Ok p, s') →
           p = DERIVED_DIR // method // ("eps_" +:+ replace_dots (str eps))
           ∧ path_str p = path_str DERIVED_DIR +:+ "/" +:+ method
                          +:+ "/" +:+ "eps_" +:+ replace_dots (str eps))
  ∧ (blocked s (DERIVED_DIR // method // ("eps_" +:+ replace_dots (str eps))) = false →
     ∃ s', method_dir method eps s
           = (Ok (DERIVED_DIR // method // ("eps_" +:+ replace_dots (str eps))), s'))
  ∧ (float_str float_0_1 = "0.1" →
     blocked s (DERIVED_DIR // "method1" // "eps_0_1") = false →
     ∃ s', method_dir "method1" (PyFloat float_0_1) s
           = (Ok (DERIVED_DIR // "method1" // "eps_0_1"), s'))
  ∧ (blocked s (DERIVED_DIR // "method1" // "eps_10") = false →
     ∃ s', method_dir "method1" (PyInt 10) s
           = (Ok (DERIVED_DIR // "method1" // "eps_10"), s')).
Proof.
  intros Hm. split; [|split; [|split]].
  - intros p s' Hr. destruct (method_dir_returns _ _ _ _ _ Hm Hr) as (-> & _).
    split; [done|]. rewrite !path_str_pjoin by done.
    by rewrite <- !append_assoc.
  - intros Hb. destruct (method_dir_ok _ _ _ Hm Hb) as (s' & Hr & _). eauto.
  - intros Hstr Hb.
    destruct (method_dir_ok "method1" (PyFloat float_0_1) s eq_refl) as (s' & Hr & _).
    { cbn [str]. by rewrite Hstr. }
    exists s'. rewrite Hr. cbn [str]. by rewrite Hstr.
  - intros Hb.
    destruct (method_dir_ok "method1" (PyInt 10) s eq_refl) as (s' & Hr & _); [done|].
    by exists s'.
Qed.

(** C10.  [method_dir] does not validate epsilon: with an accepted
    method name and any epsilon, zero and negative values included,
    the only failure is the [OSError] of [mkdir] over a regular file
    standing in the way; otherwise the value is encoded into the
    directory name, the directory is made and its path returned. *)
Theorem method_dir_any_eps (method : string) (eps : number) (s : fs) :
  in_set method ["method1"; "method2"; "method3"] = true →
  (blocked s (DERIVED_DIR // method // ("eps_" +:+ replace_dots (str eps))) = false →
   ∃ s', method_dir method eps s
         = (Ok (DERIVED_DIR // method // ("eps_" +:+ replace_dots (str eps))), s')
         ∧ is_dir s' (DERIVED_DIR // method // ("eps_" +:+ replace_dots (str eps))) = true)
  ∧ (∀ e s', method_dir method eps s = (Err e, s') →
             blocked s (DERIVED_DIR // method // ("eps_" +:+ replace_dots (str eps))) = true
             ∧ ∃ n f, e = OSError n f).
Proof.
  intros Hm. split.
  - intros Hb. destruct (method_dir_ok _ _ _ Hm Hb) as (s' & Hr & _ & Hd). eauto.
  - intros e s' Hr. destruct (method_dir_err _ _ _ _ _ Hm Hr) as (Hb & _ & He). eauto.
Qed.

(** C3.  [genotype_path] looks at the upper-cased population only:
    when it is CEU or YRI the result is
    <raw-genotypes-dir>/genotypes_chr<chrom>_<POP>_r27_nr.b36_fwd.txt.gz
    with the upper-cased population; otherwise it fails with
    [InvalidPopulation]; populations differing in letter case only get
    the same result.  The function takes no filesystem state: its
    result is determined by the population and the chromosome. *)
Theorem genotype_path_spec (pop : string) (chrom : Z) :
  (in_set (upper pop) ["CEU"; "YRI"] = true →
   genotype_path pop chrom
   = Ok (RAW_GENOTYPES_DIR // ("genotypes_chr" +:+ str_int chrom +:+ "_" +:+ upper pop
                               +:+ "_r27_nr.b36_fwd.txt.gz"))
   ∧ path_str <$> genotype_path pop chrom
     = Ok (path_str RAW_GENOTYPES_DIR +:+ "/" +:+ "genotypes_chr" +:+ str_int chrom
           +:+ "_" +:+ upper pop +:+ "_r27_nr.b36_fwd.txt.gz"))
  ∧ (in_set (upper pop) ["CEU"; "YRI"] = false →
     genotype_path pop chrom = Err InvalidPopulation)
  ∧ (∀ pop', same_ignoring_case pop pop' = true →
             genotype_path pop' chrom = genotype_path pop chrom).
Proof.
  split; [|split].
  - intros Hp. unfold genotype_path. rewrite Hp. split; [done|].
    cbn [negb fmap result_fmap]. by rewrite path_str_pjoin.
  - intros Hp. unfold genotype_path. by rewrite Hp.
  - intros pop' Hc. unfold genotype_path.
    by rewrite (same_ignoring_case_upper _ _ Hc).
Qed.

(** C4.  From any working directory, [find_project_root] returns the
    nearest directory, among the working directory and its ancestors
    taken from the nearest to the furthest, in which requirements.txt
    or .git exists; it fails with [RootNotFound], naming the working
    directory, exactly when there is none.  Started three levels below
    the one directory holding a marker, it returns that directory. *)
Theorem find_project_root_nearest (s : fs) (cwd : Path) :
  (∀ d, find_project_root s cwd = Ok d
        ↔ ∃ i, (cwd :: parents cwd) !! i = Some d ∧ has_marker s d = true
               ∧ ∀ j d', (j < i)%nat → (cwd :: parents cwd) !! j = Some d' →
                         has_marker s d' = false)
  ∧ (find_project_root s cwd = Err (RootNotFound cwd)
     ↔ Forall (λ d, has_marker s d = false) (cwd :: parents cwd))
  ∧ (∀ root a b c,
       cwd = root // a // b // c →
       has_marker s root = true →
       has_marker s (root // a) = false →
       has_marker s (root // a // b) = false →
       has_marker s (root // a // b // c) = false →
       find_project_root s cwd = Ok root).
Proof.
  rewrite find_project_root_search. split; [|split].
  - intros d. rewrite <- first_marked_Some.
    destruct (first_marked s (cwd :: parents cwd)); split; congruence.
  - rewrite <- first_marked_None.
    destruct (first_marked s (cwd :: parents cwd)); split; congruence.
  - intros root a b c -> Hr Ha Hb Hc. unfold pjoin in *.
    cbn [parents first_marked]. by rewrite Hc, Hb, Ha, Hr.
Qed.

(** C1.  [get_group_indices], on any cohort document and group: a
    group outside {case, control, test} fails with [InvalidGroup];
    with a valid group whose record lacks indices_in_ceu_matrix it
    fails with [MissingIndices], whose message names the group and the
    field; with the field present it returns the field's value as
    [np.array(..., dtype=int)] converts it, which for a list of
    integers is the array of these integers, and nothing is put in
    place of a missing field.  The two documents of the specification
    behave accordingly. *)
Theorem get_group_indices_spec (cohorts : gmap string json) (group : string) :
  (in_set group ["case"; "control"; "test"] = false →
   get_group_indices cohorts group = Err InvalidGroup)
  ∧ (in_set group ["case"; "control"; "test"] = true →
     ∀ rec, cohorts !! group = Some (JObj rec) →
       (rec !! "indices_in_ceu_matrix" = None →
        get_group_indices cohorts group
        = Err (KeyError ("cohorts['" +:+ group +:+ "'] is missing '"
                         +:+ "indices_in_ceu_matrix" +:+ "'. "
                         +:+ "Regenerate the cohort split with indices saved.")))
       ∧ (∀ v, rec !! "indices_in_ceu_matrix" = Some v →
               get_group_indices cohorts group = np_array_int v)
       ∧ (∀ zs, Forall (λ z, - 2 ^ 63 ≤ z < 2 ^ 63)%Z zs →
                rec !! "indices_in_ceu_matrix" = Some (JArr (JInt <$> zs)) →
                get_group_indices cohorts group = Ok (array1d zs)))
  ∧ get_group_indices
      {[ "case" := JObj {[ "indices_in_ceu_matrix" := JArr [JInt 0; JInt 3; JInt 7] ]} ]}
      "case"
    = Ok (array1d [0; 3; 7]%Z)
  ∧ get_group_indices
      {[ "case" := JObj {[ "sample_ids" := JArr [JStr "s1"; JStr "s2"] ]} ]} "case"
    = Err (MissingIndices "case" "indices_in_ceu_matrix").
Proof.
  split; [|split; [|split]].
  - intros Hg. unfold get_group_indices. by rewrite Hg.
  - intros Hg rec Hc. rewrite (get_group_indices_object _ _ _ Hg Hc).
    split; [by intros ->|]. split; [by intros v ->|].
    intros zs Hzs ->. cbn [np_array_int]. by rewrite mapM_as_int64.
  - rewrite (get_group_indices_object _ _ {[ "indices_in_ceu_matrix" := JArr [JInt 0; JInt 3; JInt 7] ]});
      [|done|by rewrite lookup_singleton_eq].
    by rewrite lookup_singleton_eq.
  - rewrite (get_group_indices_object _ _ {[ "sample_ids" := JArr [JStr "s1"; JStr "s2"] ]});
      [|done|by rewrite lookup_singleton_eq].
    by rewrite lookup_singleton_ne.
Qed.

(** C9.  On a cohort document without the requested group, a valid
    group name makes [get_group_indices] fail with the [KeyError] of
    the subscript [cohorts[group]], whose argument is the group name:
    it is not the [MissingIndices] error with its guidance, the
    subscript coming before the test on the index field. *)
Theorem get_group_indices_missing_group (cohorts : gmap string json) (group : string) :
  in_set group ["case"; "control"; "test"] = true →
  cohorts !! group = None →
  get_group_indices cohorts group = Err (KeyError group)
  ∧ KeyError group ≠ MissingIndices group "indices_in_ceu_matrix".
Proof.
  intros Hg Hc. split.
  - unfold get_group_indices, dict_getitem. by rewrite Hg, Hc.
  - apply in_set_true in Hg. unfold MissingIndices.
    repeat (apply elem_of_cons in Hg as [->|Hg]; [discriminate|]).
    by apply elem_of_nil in Hg.
Qed.

(** C5.  [load_region_npz] on an archive with fields [z]: when it
    returns, a field absent from the archive is absent from the
    record, sample_ids, snp_ids and the four allele-label fields are
    there as [astype(object)] gives them, positions as
    [astype(np.int64)] and G as [astype(np.int8)] give it, and every
    other field is unchanged; it returns whenever these conversions of
    the fields present do, and fails only with the error of one of
    them: it tests no value and asks for no field. *)
Theorem load_region_npz_spec (path : Path) (z : gmap string ndarray) :
  np_load path = Ok z →
  (∀ out, load_region_npz path = Ok out →
     ∀ k, match z !! k with
          | None => out !! k = None
          | Some a => match target_dtype k with
                      | Some t => ∃ a', astype a t = Ok a' ∧ out !! k = Some a'
                      | None => out !! k = Some a
                      end
          end)
  ∧ (∀ e, load_region_npz path = Err e →
          ∃ k t a, target_dtype k = Some t ∧ z !! k = Some a ∧ astype a t = Err e)
  ∧ ((∀ k t a, target_dtype k = Some t → z !! k = Some a → is_ok (astype a t) = true) →
     ∃ out, load_region_npz path = Ok out).
Proof.
  intros Hz.
  assert (NoDup object_keys) as Hnd by (by apply (bool_decide_unpack _)).
  assert (∀ k : string, NoDup [k]) as Hnd1 by (intros k; apply NoDup_singleton).
  assert (∀ e, load_region_npz path = Err e →
          ∃ k t a, target_dtype k = Some t ∧ z !! k = Some a ∧ astype a t = Err e) as Herr.
  { intros e. rewrite (load_region_npz_steps _ _ Hz).
    destruct (normalize_fields object_keys np_object z) as [o1|e1] eqn:H1.
    2:{ intros [= ->]. apply normalize_fields_err in H1 as (k & a & Hk & ? & ?); [|done].
        exists k, np_object, a. by rewrite target_dtype_object. }
    pose proof (normalize_fields_ok _ _ _ _ Hnd H1) as Ho1.
    destruct (normalize_fields ["positions"] np_int64 o1) as [o2|e2] eqn:H2.
    2:{ intros [= ->]. apply normalize_fields_err in H2 as (k & a & Hk & Hl & ?); [|done].
        apply list_elem_of_singleton in Hk as ->. specialize (Ho1 "positions").
        rewrite Hl in Ho1. destruct (z !! "positions") as [a0|] eqn:Hz0; [|done].
        rewrite bool_decide_eq_false_2 in Ho1 by (by apply (bool_decide_unpack _)).
        exists "positions", np_int64, a0. split; [done|]. split; [done|]. congruence. }
    pose proof (normalize_fields_ok _ _ _ _ (Hnd1 _) H2) as Ho2.
    destruct (normalize_fields ["G"] np_int8 o2) as [o3|e3] eqn:H3; [done|].
    intros [= ->]. apply normalize_fields_err in H3 as (k & a & Hk & Hl & ?); [|done].
    apply list_elem_of_singleton in Hk as ->.
    specialize (Ho1 "G"). specialize (Ho2 "G"). rewrite Hl in Ho2.
    destruct (o1 !! "G") as [a1|] eqn:Hl1; [|done].
    rewrite bool_decide_eq_false_2 in Ho2 by (by apply (bool_decide_unpack _)).
    destruct (z !! "G") as [a0|] eqn:Hz0; [|done].
    rewrite bool_decide_eq_false_2 in Ho1 by (by apply (bool_decide_unpack _)).
    exists "G", np_int8, a0. split; [done|]. split; [done|]. congruence. }
  split; [|split; [done|]].
  - intros out. rewrite (load_region_npz_steps _ _ Hz).
    destruct (normalize_fields object_keys np_object z) as [o1|e1] eqn:H1; [|done].
    destruct (normalize_fields ["positions"] np_int64 o1) as [o2|e2] eqn:H2; [|done].
    destruct (normalize_fields ["G"] np_int8 o2) as [o3|e3] eqn:H3; [|done].
    intros [= <-] k.
    pose proof (normalize_fields_ok _ _ _ _ Hnd H1 k) as Ho1.
    pose proof (normalize_fields_ok _ _ _ _ (Hnd1 _) H2 k) as Ho2.
    pose proof (normalize_fields_ok _ _ _ _ (Hnd1 _) H3 k) as Ho3.
    unfold target_dtype, in_set.
    destruct (z !! k) as [a|]; [|by rewrite Ho1 in Ho2; rewrite Ho2 in Ho3].
    destruct (bool_decide (k ∈ object_keys)) eqn:Hobj.
    + destruct Ho1 as (a' & Ha & Hl1). exists a'. split; [done|].
      apply bool_decide_eq_true in Hobj.
      assert (k ≠ "positions" ∧ k ≠ "G") as [??].
      { split; intros ->; revert Hobj; by apply (bool_decide_unpack _). }
      rewrite Hl1 in Ho2. rewrite bool_decide_eq_false_2 in Ho2
        by (by rewrite list_elem_of_singleton).
      rewrite Ho2 in Ho3. by rewrite bool_decide_eq_false_2 in Ho3
        by (by rewrite list_elem_of_singleton).
    + rewrite Ho1 in Ho2. destruct (String.eqb_spec k "positions") as [->|Hp].
      * rewrite bool_decide_eq_true_2 in Ho2 by (by rewrite list_elem_of_singleton).
        destruct Ho2 as (a' & Ha & Hl2). exists a'. split; [done|]. by rewrite Hl2 in Ho3.
      * rewrite bool_decide_eq_false_2 in Ho2 by (by rewrite list_elem_of_singleton).
        rewrite Ho2 in Ho3. destruct (String.eqb_spec k "G") as [->|HG].
        -- by rewrite bool_decide_eq_true_2 in Ho3 by (by rewrite list_elem_of_singleton).
        -- by rewrite bool_decide_eq_false_2 in Ho3 by (by rewrite list_elem_of_singleton).
  - intros Hall. destruct (load_region_npz path) as [out|e] eqn:Hr; [by exists out|].
    destruct (Herr e eq_refl) as (k & t & a & Ht & Hl & Ha).
    specialize (Hall k t a Ht Hl). by rewrite Ha in Hall.
Qed.

(** C8 (amended).  For every tuple of paths that are the project root
    or lie below it, [assert_exists] prints the banner and then one
    line for every path of the tuple, in order, telling whether it
    exists, and only then fails with [MissingRequiredFiles], which it
    does if and only if at least one path is absent; when every path
    exists it returns without error. *)
Theorem assert_exists_under_root (s : fs) (paths : list Path) (label : string) :
  Forall (λ p, PROJECT_ROOT `suffix_of` p) paths →
  assert_exists s paths label
  = (if forallb (exists_ s) paths then Ok () else Err MissingRequiredFiles,
     Banner label :: (report_line s <$> paths))
  ∧ (fst (assert_exists s paths label) = Err MissingRequiredFiles
     ↔ Exists (λ p, exists_ s p = false) paths)
  ∧ (Forall (λ p, exists_ s p = true) paths →
     fst (assert_exists s paths label) = Ok ()).
Proof.
  intros Hall.
  assert (assert_exists s paths label
          = (if forallb (exists_ s) paths then Ok () else Err MissingRequiredFiles,
             Banner label :: (report_line s <$> paths))) as Heq.
  { unfold assert_exists. rewrite (check_paths_under_root _ _ _ Hall).
    cbn [andb mbind result_bind]. by destruct (forallb (exists_ s) paths). }
  split; [done|]. rewrite Heq. cbn [fst]. split.
  - rewrite <- forallb_false_Exists.
    by destruct (forallb (exists_ s) paths).
  - intros Hex%forallb_true_Forall. by rewrite Hex.
Qed.


(** *** Further properties: root resolution *)

Lemma first_marked_stable (s : fs) (q d : Path) :
  first_marked s (q :: parents q) = Some d →
  d `suffix_of` q ∧ has_marker s d = true
  ∧ ∀ q', d `suffix_of` q' → q' `suffix_of` q →
          first_marked s (q' :: parents q') = Some d.
Proof.
  induction q as [|c q IH]; cbn [parents first_marked].
  - destruct (has_marker s []) eqn:Hm; [|done]. intros [= <-].
    split; [done|]. split; [done|]. intros q' _ ->%suffix_nil_inv.
    cbn [parents first_marked]. by rewrite Hm.
  - destruct (has_marker s (c :: q)) eqn:Hm.
    + intros [= <-]. split; [done|]. split; [done|].
      intros q' H1 H2. assert (q' = c :: q) as -> by (by apply (anti_symm suffix)).
      cbn [parents first_marked]. by rewrite Hm.
    + intros (Hsuf & Hd & Hbetween)%IH. split; [by apply suffix_cons_r|].
      split; [done|]. intros q' H1 [->|H2]%suffix_cons_cases.
      * cbn [parents first_marked]. rewrite Hm.
        apply (Hbetween q); [done|done].
      * by apply Hbetween.
Qed.

(** X1.  The directory [find_project_root] returns is the working
    directory or one of its ancestors and holds a marker; and every
    directory from it down to the working directory resolves to the same
    root, the root itself included. *)
Theorem find_project_root_stable (s : fs) (cwd d : Path) :
  find_project_root s cwd = Ok d →
  d `suffix_of` cwd ∧ has_marker s d = true
  ∧ ∀ q, d `suffix_of` q → q `suffix_of` cwd → find_project_root s q = Ok d.
Proof.
  rewrite find_project_root_search.
  destruct (first_marked s (cwd :: parents cwd)) as [d'|] eqn:Hf; [|done].
  intros [= ->]. destruct (first_marked_stable _ _ _ Hf) as (? & ? & Hq).
  split; [done|]. split; [done|]. intros q H1 H2.
  rewrite find_project_root_search. by rewrite (Hq q H1 H2).
Qed.

(** *** Further properties: directory creation *)

Lemma grown_within_refl (P : Path → Prop) (s : fs) : grown_within P s s.
Proof. intros q. by left. Qed.

Lemma grown_within_trans (P : Path → Prop) (s1 s2 s3 : fs) :
  grown_within P s1 s2 → grown_within P s2 s3 → grown_within P s1 s3.
Proof.
  intros H12 H23 q. destruct (H12 q) as [E12|(N1 & D2 & ?)];
    destruct (H23 q) as [E23|(N2 & D3 & ?)].
  - left. congruence.
  - right. split; [congruence|done].
  - right. split; [done|]. split; [congruence|done].
  - congruence.
Qed.

Lemma grown_within_weaken (P Q : Path → Prop) (s s' : fs) :
  (∀ q, P q → Q q) → grown_within P s s' → grown_within Q s s'.
Proof. intros HPQ H q. destruct (H q) as [?|(?&?&?)]; [by left|right; auto]. Qed.

Lemma grown_within_insert (P : Path → Prop) (s : fs) (p : Path) :
  s !! p = None → P p → grown_within P s (<[p := Dir]> s).
Proof.
  intros Hp HP q. destruct (decide (p = q)) as [<-|Hne].
  - right. by rewrite lookup_insert_eq.
  - left. by rewrite lookup_insert_ne.
Qed.

Lemma grown_within_only_dirs_added (P : Path → Prop) (s s' : fs) :
  grown_within P s s' → only_dirs_added s s'.
Proof.
  intros H. split.
  - apply map_subseteq_spec. intros q k Hq.
    destruct (H q) as [->|(? & _)]; [done|congruence].
  - intros q Hq. destruct (H q) as [<-|(_ & ? & _)]; [done|congruence].
Qed.

(** [os.mkdir] adds the directory or raises and changes nothing. *)
Lemma os_mkdir_cases (p : Path) (s : fs) :
  (os_mkdir p s = (Ok (), <[p := Dir]> s) ∧ s !! p = None ∧ p ≠ [])
  ∨ ∃ n, os_mkdir p s = (Err (OSError n p), s).
Proof.
  destruct p as [|c q]; cbn [os_mkdir]; [right; eauto|].
  destruct (stat_cases s q) as [[-> _]|[[-> _]|[->|[-> _]]]]; [|right; eauto..].
  destruct (s !! (c :: q)) eqn:Hl; [right; eauto|by left].
Qed.

Lemma mkdir_single_grown (b : bool) (p : Path) (s : fs) :
  grown_within (λ q, q = p) s (snd (mkdir_single b p s)).
Proof.
  unfold mkdir_single.
  destruct (os_mkdir_cases p s) as [(-> & Hn & _)|[n ->]].
  - by apply grown_within_insert.
  - destruct n; cbn [snd]; try apply grown_within_refl;
      destruct (negb b || negb (is_dir s p)); cbn [snd]; apply grown_within_refl.
Qed.

(** Whatever its outcome, [mkdir(parents=True)] changes the filesystem
    only by adding directories at the path and its ancestors. *)
Lemma mkdir_parents_grown (b : bool) (p : Path) (s : fs) :
  grown_within (λ q, q `suffix_of` p) s (snd (mkdir_parents b p s)).
Proof.
  revert b s. induction p as [|c q IH]; intros b s.
  - cbn. destruct b; apply grown_within_refl.
  - cbn [mkdir_parents].
    destruct (os_mkdir_cases (c :: q) s) as [(-> & Hn & _)|[n ->]].
    + by apply grown_within_insert.
    + destruct n.
      * specialize (IH true s).
        destruct (mkdir_parents true q s) as [[[]|e] s1]; cbn [snd] in IH |- *.
        -- eapply grown_within_trans.
           ++ eapply grown_within_weaken; [|exact IH]. intros q'. apply suffix_cons_r.
           ++ eapply grown_within_weaken; [|apply mkdir_single_grown].
              by intros q' ->.
        -- eapply grown_within_weaken; [|exact IH]. intros q'. apply suffix_cons_r.
      * destruct (negb b || negb (is_dir s (c :: q))); cbn [snd]; apply grown_within_refl.
      * destruct (negb b || negb (is_dir s (c :: q))); cbn [snd]; apply grown_within_refl.
Qed.

Lemma for_each_mkdir_grown (ds : list Path) (s : fs) :
  grown_within (λ q, ∃ d, d ∈ ds ∧ q `suffix_of` d) s
    (snd (for_each ds (mkdir true true) s)).
Proof.
  revert s. induction ds as [|d ds IH]; intros s; [apply grown_within_refl|].
  cbn [for_each]. unfold mbind, io_bind.
  pose proof (mkdir_parents_grown true d s) as Hd. unfold mkdir at 1.
  destruct (mkdir_parents true d s) as [[[]|e] s1]; cbn [snd] in Hd |- *.
  - eapply grown_within_trans.
    + eapply grown_within_weaken; [|exact Hd]. intros q ?. exists d. split; [left|done].
    + eapply grown_within_weaken; [|apply IH].
      intros q (d' & ? & ?). exists d'. split; [by right|done].
  - eapply grown_within_weaken; [|exact Hd]. intros q ?. exists d. split; [left|done].
Qed.

(** The loop of [ensure_dirs] either finds no regular file in the way
    or fails on one. *)
Lemma for_each_mkdir_cases (ds : list Path) (s : fs) :
  (Forall (λ d, blocked s d = false) ds
   ∧ ∃ s', for_each ds (mkdir true true) s = (Ok (), s')
           ∧ Forall (λ d, is_dir s' d = true) ds)
  ∨ (Exists (λ d, blocked s d = true) ds
     ∧ ∃ n f s', for_each ds (mkdir true true) s = (Err (OSError n f), s')).
Proof.
  assert (Forall (λ d, blocked s d = false) ds
          ∨ Exists (λ d, blocked s d = true) ds) as [Hall|Hex].
  { induction ds as [|d ds IH]; [by left|].
    destruct (blocked s d) eqn:Hb; [right; by left|].
    destruct IH as [?|?]; [left; by constructor|right; by right]. }
  - left. split; [done|].
    destruct (for_each_mkdir_ok ds s Hall) as (s' & Hok & _ & Hd). by exists s'.
  - right. split; [done|].
    destruct (for_each_mkdir_blocked ds s Hex) as (n & f & s' & Herr & _).
    by exists n, f, s'.
Qed.

(** X2.  [ensure_dirs] returns exactly from the states in which no
    regular file stands at a catalog directory or at one of its
    ancestors; otherwise it fails with the [OSError] of the [mkdir] that
    met the file. *)
Theorem ensure_dirs_outcome (s : fs) :
  ((∃ s', ensure_dirs s = (Ok (), s')) ↔ Forall (λ d, blocked s d = false) catalog)
  ∧ ∀ e s', ensure_dirs s = (Err e, s') →
            Exists (λ d, blocked s d = true) catalog ∧ ∃ n f, e = OSError n f.
Proof.
  destruct (for_each_mkdir_cases catalog s)
    as [(Hall & s' & Hok & _)|(Hex & n & f & s' & Herr)].
  - change (ensure_dirs s = (Ok (), s')) in Hok.
    rewrite Hok. split; [split; [done|by exists s']|]. intros; simplify_eq.
  - change (ensure_dirs s = (Err (OSError n f), s')) in Herr.
    rewrite Herr. split.
    + split; [by intros [? ?]|]. intros Hall. exfalso.
      apply Exists_exists in Hex as (d & Hd & Hb).
      rewrite Forall_forall in Hall. specialize (Hall d Hd). congruence.
    + intros e s'' [= <- <-]. split; [done|]. by exists n, f.
Qed.

(** X3.  Whether it returns or raises, [ensure_dirs] leaves every
    existing entry as it was and adds nothing but directories, each of
    them a catalog directory or an ancestor of one. *)
Theorem ensure_dirs_frame (s : fs) :
  only_dirs_added s (snd (ensure_dirs s))
  ∧ ∀ q, snd (ensure_dirs s) !! q ≠ s !! q →
         s !! q = None ∧ snd (ensure_dirs s) !! q = Some Dir
         ∧ ∃ d, d ∈ catalog ∧ q `suffix_of` d.
Proof.
  pose proof (for_each_mkdir_grown catalog s) as Hg.
  change (for_each catalog (mkdir true true) s) with (ensure_dirs s) in Hg.
  split; [by eapply grown_within_only_dirs_added|].
  intros q Hne. by destruct (Hg q) as [?|(? & ? & ?)].
Qed.

(** Where the directory exists, [method_dir] returns it and changes
    nothing. *)
Lemma method_dir_existing (method : string) (eps : number) (s : fs) :
  in_set method ["method1"; "method2"; "method3"] = true →
  is_dir s (DERIVED_DIR // method // ("eps_" +:+ replace_dots (str eps))) = true →
  method_dir method eps s
  = (Ok (DERIVED_DIR // method // ("eps_" +:+ replace_dots (str eps))), s).
Proof.
  intros Hm Hd. rewrite (method_dir_valid _ _ Hm).
  by rewrite (io_bind_ok _ _ s s () (mkdir_parents_is_dir _ _ Hd)).
Qed.

(** X4.  [method_dir] is idempotent: after a call that returned, the
    same call returns the same path and leaves the filesystem as it
    is. *)
Theorem method_dir_idempotent (method : string) (eps : number) (s s' : fs) (p : Path) :
  method_dir method eps s = (Ok p, s') →
  method_dir method eps s' = (Ok p, s').
Proof.
  destruct (in_set method ["method1"; "method2"; "method3"]) eqn:Hm.
  - intros Hr. destruct (method_dir_returns _ _ _ _ _ Hm Hr) as (-> & _ & Hd).
    rewrite (method_dir_valid _ _ Hm).
    by rewrite (io_bind_ok _ _ s' s' () (mkdir_parents_is_dir _ _ Hd)).
  - unfold method_dir. by rewrite Hm.
Qed.

(** X5.  Whether it returns or raises, [method_dir] leaves every
    existing entry as it was and adds nothing but directories, each of
    them the directory it names or an ancestor of it. *)
Theorem method_dir_frame (method : string) (eps : number) (s : fs) :
  only_dirs_added s (snd (method_dir method eps s))
  ∧ ∀ q, snd (method_dir method eps s) !! q ≠ s !! q →
         s !! q = None ∧ snd (method_dir method eps s) !! q = Some Dir
         ∧ q `suffix_of` DERIVED_DIR // method // ("eps_" +:+ replace_dots (str eps)).
Proof.
  assert (grown_within
            (λ q, q `suffix_of` DERIVED_DIR // method // ("eps_" +:+ replace_dots (str eps)))
            s (snd (method_dir method eps s))) as Hg.
  { unfold method_dir.
    destruct (in_set method ["method1"; "method2"; "method3"]); [|apply grown_within_refl].
    cbn [negb]. unfold mbind, io_bind.
    pose proof (mkdir_parents_grown true
      (DERIVED_DIR // method // ("eps_" +:+ replace_dots (str eps))) s) as Hg.
    unfold mkdir at 1.
    by destruct (mkdir_parents true _ s) as [[[]|e] s1]. }
  split; [by eapply grown_within_only_dirs_added|].
  intros q Hne. by destruct (Hg q) as [?|(? & ? & ?)].
Qed.

Lemma ensure_dirs_is_dir (s s' : fs) (d : Path) :
  ensure_dirs s = (Ok (), s') → d ∈ catalog → is_dir s' d = true.
Proof.
  intros Hr Hd.
  destruct (for_each_mkdir_cases catalog s)
    as [(_ & s1 & Hok & Hdirs)|(_ & n & f & s1 & Herr)].
  - change (ensure_dirs s = (Ok (), s1)) in Hok.
    assert (s1 = s') as -> by congruence.
    by apply (proj1 (Forall_forall _ _) Hdirs).
  - change (ensure_dirs s = (Err (OSError n f), s1)) in Herr. congruence.
Qed.

(** Making a directory right below an existing directory. *)
Lemma mkdir_parents_child (s : fs) (c : string) (q : Path) :
  stat s q = Ok Dir →
  mkdir_parents true (c :: q) s
  = match s !! (c :: q) with
    | None => (Ok (), <[c :: q := Dir]> s)
    | Some Dir => (Ok (), s)
    | Some File => (Err (OSError EEXIST (c :: q)), s)
    end.
Proof.
  intros Hq. cbn [mkdir_parents os_mkdir]. rewrite Hq.
  destruct (s !! (c :: q)) as [[]|] eqn:Hl; [| |done];
    unfold is_dir; cbn [stat]; by rewrite Hq, Hl.
Qed.

(** X6.  After [ensure_dirs] has returned, [method_dir] with an accepted
    method depends on the one entry at the directory it names: absent,
    that single directory is added; a directory, nothing changes; a
    regular file, the call fails with [FileExistsError] and nothing
    changes. *)
Theorem ensure_dirs_then_method_dir (method : string) (eps : number) (s s1 : fs) :
  ensure_dirs s = (Ok (), s1) →
  in_set method ["method1"; "method2"; "method3"] = true →
  method_dir method eps s1
  = match s1 !! (DERIVED_DIR // method // ("eps_" +:+ replace_dots (str eps))) with
    | None => (Ok (DERIVED_DIR // method // ("eps_" +:+ replace_dots (str eps))),
               <[DERIVED_DIR // method // ("eps_" +:+ replace_dots (str eps)) := Dir]> s1)
    | Some Dir => (Ok (DERIVED_DIR // method // ("eps_" +:+ replace_dots (str eps))), s1)
    | Some File =>
        (Err (OSError EEXIST (DERIVED_DIR // method // ("eps_" +:+ replace_dots (str eps)))),
         s1)
    end.
Proof.
  intros Hr Hm.
  assert (is_dir s1 (DERIVED_DIR // method) = true) as Hd.
  { apply (ensure_dirs_is_dir s s1 _ Hr). apply in_set_true in Hm.
    unfold catalog, DERIVED_METHOD1_DIR, DERIVED_METHOD2_DIR, DERIVED_METHOD3_DIR.
    repeat (apply elem_of_cons in Hm as [->|Hm]; [repeat first [by left|right]|]).
    by apply elem_of_nil in Hm. }
  apply is_dir_stat in Hd. rewrite (method_dir_valid _ _ Hm).
  unfold mbind, io_bind.
  change (mkdir true true (DERIVED_DIR // method // ("eps_" +:+ replace_dots (str eps))) s1)
    with (mkdir_parents true (("eps_" +:+ replace_dots (str eps)) :: DERIVED_DIR // method) s1).
  rewrite (mkdir_parents_child _ _ _ Hd). unfold pjoin.
  by destruct (s1 !! (("eps_" +:+ replace_dots (str eps)) :: method :: DERIVED_DIR))
    as [[]|].
Qed.

Lemma catalog_under_root : Forall (λ p, PROJECT_ROOT `suffix_of` p) catalog.
Proof.
  unfold catalog, RAW_GENOTYPES_DIR, RAW_PHASING_DIR, RAW_PHASING_META_DIR,
    PROC_REGIONS_DIR, PROC_COHORTS_DIR, PROC_BLOCKS_DIR, PROC_HAPLOTYPES_DIR,
    DERIVED_METHOD1_DIR, DERIVED_METHOD2_DIR, DERIVED_METHOD3_DIR,
    RAW_DIR, PROC_DIR, DERIVED_DIR, DATA_DIR, pjoin.
  repeat constructor; by repeat apply suffix_cons_r.
Qed.

Lemma is_dir_exists (s : fs) (p : Path) : is_dir s p = true → exists_ s p = true.
Proof. unfold is_dir, exists_. by destruct (stat s p) as [[]|]. Qed.

(** X7.  After [ensure_dirs] has returned, [assert_exists] over the
    catalog passes: it reports every catalog directory as present and
    returns without error. *)
Theorem ensure_dirs_then_assert_exists (s s' : fs) (label : string) :
  ensure_dirs s = (Ok (), s') →
  assert_exists s' catalog label
  = (Ok (), Banner label
            :: ((λ d, Present (take (List.length d - List.length PROJECT_ROOT)%nat d))
                  <$> catalog)).
Proof.
  intros Hr. unfold assert_exists.
  rewrite (check_paths_under_root _ _ _ catalog_under_root).
  assert (Forall (λ d, exists_ s' d = true) catalog) as Hex.
  { apply Forall_forall. intros d Hd. apply is_dir_exists.
    by apply (ensure_dirs_is_dir s s'). }
  rewrite (proj2 (forallb_true_Forall _ _) Hex). cbn [andb mbind result_bind negb].
  do 2 f_equal. apply list_fmap_ext. intros _ d Hd%list_elem_of_lookup_2.
  unfold report_line. by rewrite (proj1 (Forall_forall _ _) Hex d Hd).
Qed.

(** *** Further properties: naming *)

Lemma length_append (a b : string) :
  String.length (a +:+ b) = (String.length a + String.length b)%nat.
Proof.
  induction a as [|c a IH]; [done|].
  change (S (String.length (a +:+ b)) = S (String.length a + String.length b)).
  by rewrite IH.
Qed.

(** Two equal concatenations with tails of one length agree part by
    part. *)
Lemma append_inv_length (a b x y : string) :
  a +:+ x = b +:+ y → String.length x = String.length y → a = b ∧ x = y.
Proof.
  revert b. induction a as [|c a IH]; intros [|d b] Heq Hlen.
  - done.
  - exfalso. change (x = String d b +:+ y) in Heq.
    rewrite Heq, length_append in Hlen. cbn in Hlen. lia.
  - exfalso. change (String c a +:+ x = y) in Heq.
    rewrite <- Heq, length_append in Hlen. cbn in Hlen. lia.
  - change (String c (a +:+ x) = String d (b +:+ y)) in Heq.
    injection Heq as -> Heq. by destruct (IH b Heq Hlen) as [-> ->].
Qed.

(** Of two equal concatenations, the shorter tail ends the longer. *)
Lemma append_inv_tail (a b x y : string) :
  a +:+ x = b +:+ y → (String.length x ≤ String.length y)%nat → ∃ pre, y = pre +:+ x.
Proof.
  revert b. induction a as [|c a IH]; intros [|d b] Heq Hlen.
  - exists "". change (x = y) in Heq. by subst.
  - exfalso. change (x = String d b +:+ y) in Heq.
    rewrite Heq, length_append in Hlen. cbn in Hlen. lia.
  - exists (String c a). change (String c a +:+ x = y) in Heq. by subst.
  - change (String c (a +:+ x) = String d (b +:+ y)) in Heq.
    injection Heq as -> Heq. by apply (IH b).
Qed.

Lemma append_inj_r (a b x : string) : a +:+ x = b +:+ x → a = b.
Proof. intros H. by destruct (append_inv_length a b x x H eq_refl). Qed.

Lemma upper_ascii_idemp (c : ascii) : upper_ascii (upper_ascii c) = upper_ascii c.
Proof. by destruct c as [[] [] [] [] [] [] [] []]. Qed.

Lemma upper_idemp (s : string) : upper (upper s) = upper s.
Proof.
  induction s as [|c s IH]; [done|]. cbn [upper]. by rewrite upper_ascii_idemp, IH.
Qed.

(** X8.  [genotype_path] folds the case of the population and nothing
    else: the upper-cased population gets the same result, and two calls
    that return the same path were given the same chromosome and
    populations with the same upper-case form; no two (population,
    chromosome) pairs share a file. *)
Theorem genotype_path_injective (pop1 pop2 : string) (chrom1 chrom2 : Z) (p : Path) :
  genotype_path (upper pop1) chrom1 = genotype_path pop1 chrom1
  ∧ (genotype_path pop1 chrom1 = Ok p → genotype_path pop2 chrom2 = Ok p →
     upper pop1 = upper pop2 ∧ chrom1 = chrom2).
Proof.
  split.
  - unfold genotype_path. by rewrite upper_idemp.
  - unfold genotype_path.
    destruct (in_set (upper pop1) ["CEU"; "YRI"]) eqn:H1; [|done].
    destruct (in_set (upper pop2) ["CEU"; "YRI"]) eqn:H2; [|done].
    cbn [negb]. intros [= <-] [= Heq].
    change (str_int chrom2 +:+ "_" +:+ upper pop2 +:+ "_r27_nr.b36_fwd.txt.gz"
            = str_int chrom1 +:+ "_" +:+ upper pop1 +:+ "_r27_nr.b36_fwd.txt.gz") in Heq.
    apply in_set_true in H1. apply in_set_true in H2.
    assert (∀ P, P ∈ ["CEU"; "YRI"] →
              String.length ("_" +:+ P +:+ "_r27_nr.b36_fwd.txt.gz") = 26%nat) as Hlen.
    { intros P HP. repeat (apply elem_of_cons in HP as [->|HP]; [done|]).
      by apply elem_of_nil in HP. }
    apply append_inv_length in Heq as [Hc Hp]; [|by rewrite !Hlen].
    split; [|symmetry; by apply (inj pretty)].
    apply (inj (String.append "_")) in Hp. symmetry. by apply append_inj_r in Hp.
Qed.

(** X9.  For region names without separator, the region-keyed helpers
    are injective: two regions share neither their archive nor their
    blocks file, and [control_haplotypes_path] gives different paths for
    different regions and for the two values of its flag, whatever the
    regions. *)
Theorem region_paths_injective (r1 r2 : string) (b1 b2 : bool) :
  lacks "/" r1 = true → lacks "/" r2 = true →
  (region_npz_path r1 = region_npz_path r2 → r1 = r2)
  ∧ (blocks_json_path r1 = blocks_json_path r2 → r1 = r2)
  ∧ (control_haplotypes_path r1 b1 = control_haplotypes_path r2 b2 → r1 = r2 ∧ b1 = b2).
Proof.
  intros _ _. unfold region_npz_path, blocks_json_path, control_haplotypes_path, pjoin.
  split; [|split].
  - intros [= H]. by apply append_inj_r in H.
  - intros [= H]. by apply append_inj_r in H.
  - assert (∀ a b, a +:+ ".control_haplotypes.phased_compatible.json"
                   ≠ b +:+ ".control_haplotypes.json") as Hne.
    { intros a b H. symmetry in H.
      apply append_inv_tail in H as [pre H]; [|cbn; lia].
      assert (String.length pre = 18%nat) as Hpre.
      { apply (f_equal String.length) in H. rewrite length_append in H. cbn in H. lia. }
      do 18 (destruct pre as [|? pre]; [cbn in Hpre; lia|]).
      destruct pre; [|cbn in Hpre; lia]. vm_compute in H. discriminate. }
    destruct b1, b2; intros [= H].
    + by apply append_inj_r in H.
    + by apply Hne in H.
    + symmetry in H. by apply Hne in H.
    + by apply append_inj_r in H.
Qed.

(** Two equal concatenations with heads of one length agree part by
    part. *)
Lemma append_inv_length_l (a b x y : string) :
  a +:+ x = b +:+ y → String.length a = String.length b → a = b ∧ x = y.
Proof.
  revert b. induction a as [|c a IH]; intros [|d b] Heq Hlen; try done.
  change (String c (a +:+ x) = String d (b +:+ y)) in Heq.
  injection Heq as -> Heq. injection Hlen as Hlen.
  by destruct (IH b Heq Hlen) as [-> ->].
Qed.

(** X10.  For populations that are CEU or YRI up to letter case and
    tags without separator, [aligned_region_npz_path] depends on the
    populations through their upper-case form only and is otherwise
    injective: two calls give the same path exactly when their tags are
    equal and their populations agree up to letter case, position by
    position. *)
Theorem aligned_region_npz_path_injective (pop1 tag1 other1 pop2 tag2 other2 : string) :
  in_set (upper pop1) ["CEU"; "YRI"] = true → in_set (upper other1) ["CEU"; "YRI"] = true →
  in_set (upper pop2) ["CEU"; "YRI"] = true → in_set (upper other2) ["CEU"; "YRI"] = true →
  lacks "/" tag1 = true → lacks "/" tag2 = true →
  aligned_region_npz_path pop1 tag1 other1 = aligned_region_npz_path pop2 tag2 other2
  ↔ upper pop1 = upper pop2 ∧ tag1 = tag2 ∧ upper other1 = upper other2.
Proof.
  intros Hp1 Ho1 Hp2 Ho2 _ _. unfold aligned_region_npz_path, pjoin. split.
  - intros [= Heq].
    assert (∀ P, in_set P ["CEU"; "YRI"] = true →
              String.length P = 3%nat
              ∧ String.length (".common_with_" +:+ P +:+ ".npz") = 20%nat) as Hlen.
    { intros P HP%in_set_true. repeat (apply elem_of_cons in HP as [->|HP]; [done|]).
      by apply elem_of_nil in HP. }
    apply append_inv_length_l in Heq as [HP Heq];
      [|by rewrite (proj1 (Hlen _ Hp1)), (proj1 (Hlen _ Hp2))].
    apply (inj (String.append "_")) in Heq.
    apply append_inv_length in Heq as [Ht Heq];
      [|by rewrite (proj2 (Hlen _ Ho1)), (proj2 (Hlen _ Ho2))].
    apply (inj (String.append ".common_with_")) in Heq.
    by apply append_inj_r in Heq.
  - by intros (-> & -> & ->).
Qed.

(** X11.  Every path the helpers return lies below the data directory
    of the project root (region names and tags without separator), so
    [relative_to(PROJECT_ROOT)] is defined on it. *)
Theorem helper_paths_under_data (region tag pop other : string) (flag : bool) :
  lacks "/" region = true → lacks "/" tag = true →
  lacks "/" pop = true → lacks "/" other = true →
  Forall (λ p, DATA_DIR `suffix_of` p ∧ is_ok (relative_to p PROJECT_ROOT) = true)
    [ region_npz_path region; cohorts_json_path; ceu_yri_cohorts_json_path;
      aligned_region_npz_path pop tag other; blocks_json_path region;
      control_haplotypes_path region flag; maf_reference_path ]
  ∧ (∀ chrom p, genotype_path pop chrom = Ok p →
                DATA_DIR `suffix_of` p ∧ is_ok (relative_to p PROJECT_ROOT) = true)
  ∧ (∀ method eps s p s', method_dir method eps s = (Ok p, s') →
                DATA_DIR `suffix_of` p ∧ is_ok (relative_to p PROJECT_ROOT) = true).
Proof.
  intros _ _ _ _.
  assert (∀ p, DATA_DIR `suffix_of` p →
            DATA_DIR `suffix_of` p ∧ is_ok (relative_to p PROJECT_ROOT) = true) as Hrel.
  { intros p Hp. split; [done|]. unfold relative_to.
    rewrite bool_decide_eq_true_2; [done|].
    etrans; [|exact Hp]. by apply suffix_cons_r. }
  split; [|split].
  - unfold region_npz_path, cohorts_json_path, ceu_yri_cohorts_json_path,
      aligned_region_npz_path, blocks_json_path, control_haplotypes_path,
      maf_reference_path, PROC_REGIONS_DIR, PROC_COHORTS_DIR, PROC_BLOCKS_DIR,
      PROC_HAPLOTYPES_DIR, PROC_DIR, pjoin.
    destruct flag;
      repeat (apply Forall_cons_2; [apply Hrel; by repeat first [done|apply suffix_cons_r]|]);
      apply Forall_nil_2.
  - intros chrom p. unfold genotype_path.
    destruct (in_set (upper pop) ["CEU"; "YRI"]); [|done]. intros [= <-].
    apply Hrel. unfold RAW_GENOTYPES_DIR, RAW_DIR, pjoin.
    by repeat first [done|apply suffix_cons_r].
  - intros method eps s p s' Hr.
    destruct (in_set method ["method1"; "method2"; "method3"]) eqn:Hm.
    + destruct (method_dir_returns _ _ _ _ _ Hm Hr) as (-> & _).
      apply Hrel. unfold DERIVED_DIR, pjoin. by repeat first [done|apply suffix_cons_r].
    + unfold method_dir in Hr. by rewrite Hm in Hr.
Qed.

Lemma replace_dots_lacks (s : string) : lacks "." (replace_dots s) = true.
Proof.
  induction s as [|c s IH]; [done|]. cbn [replace_dots lacks]. rewrite IH, andb_true_r.
  destruct (Ascii.eqb_spec c "."); [done|]. by apply negb_true_iff, Ascii.eqb_neq.
Qed.

Lemma replace_dots_length (s : string) :
  String.length (replace_dots s) = String.length s.
Proof. induction s as [|c s IH]; [done|]. cbn. by rewrite IH. Qed.

(** Without an underscore in the strings, the replacement of dots can
    be undone. *)
Lemma replace_dots_inj (a b : string) :
  lacks "_" a = true → lacks "_" b = true → replace_dots a = replace_dots b → a = b.
Proof.
  revert b. induction a as [|c a IH]; intros [|d b]; try done.
  cbn [lacks replace_dots]. intros [Hc Ha]%andb_true_iff [Hd Hb]%andb_true_iff [= Hcd Hab].
  rewrite (IH b Ha Hb Hab). f_equal.
  apply negb_true_iff, Ascii.eqb_neq in Hc. apply negb_true_iff, Ascii.eqb_neq in Hd.
  destruct (Ascii.eqb_spec c "."), (Ascii.eqb_spec d "."); congruence.
Qed.

Lemma pretty_N_go_lacks (c : ascii) (x : N) (s : string) :
  (∀ n, Ascii.eqb (pretty_N_char n) c = false) →
  lacks c s = true → lacks c (pretty_N_go x s) = true.
Proof.
  intros Hc. revert s. induction (N.lt_wf_0 x) as [x _ IH]; intros s Hs.
  assert (x = 0 ∨ 0 < x)%N as [->|Hx] by lia; [by rewrite pretty_N_go_0|].
  rewrite pretty_N_go_step by done. apply IH; [by apply N.div_lt|].
  cbn [lacks]. by rewrite Hc, Hs.
Qed.

(** [str] of an integer has neither a dot nor an underscore. *)
Lemma str_int_lacks (c : ascii) (n : Z) :
  c = "."%char ∨ c = "_"%char → lacks c (str_int n) = true.
Proof.
  intros Hc.
  assert (∀ k, Ascii.eqb (pretty_N_char k) c = false) as Hk.
  { intros k. unfold pretty_N_char. destruct Hc as [-> | ->]; by repeat case_match. }
  assert (∀ p : positive, lacks c (pretty p) = true) as Hp.
  { intros p. unfold pretty, pretty_positive, pretty, pretty_N.
    rewrite decide_False by done. by apply pretty_N_go_lacks. }
  unfold str_int, pretty, pretty_Z. destruct n as [|p|p]; [|by apply Hp|].
  - by destruct Hc as [-> | ->].
  - change (lacks c (String "-" (pretty p)) = true). cbn [lacks]. rewrite Hp, andb_true_r.
    by destruct Hc as [-> | ->].
Qed.

Lemma replace_dots_id (s : string) : lacks "." s = true → replace_dots s = s.
Proof.
  induction s as [|c s IH]; [done|]. cbn [lacks replace_dots].
  intros [Hc Hs]%andb_true_iff. rewrite (IH Hs).
  apply negb_true_iff in Hc. by rewrite Hc.
Qed.

(** X12.  The directory name [method_dir] builds is "eps_" followed by
    as many characters as [str(eps)] has, none of them a dot; for an
    integer epsilon it is "eps_" followed by [str(eps)] itself. *)
Theorem method_dir_name (method : string) (eps : number) (s s' : fs) (p : Path) :
  method_dir method eps s = (Ok p, s') →
  ∃ enc, p = DERIVED_DIR // method // ("eps_" +:+ enc)
         ∧ lacks "." enc = true
         ∧ String.length enc = String.length (str eps)
         ∧ ∀ n, eps = PyInt n → enc = str_int n.
Proof.
  intros Hr. destruct (in_set method ["method1"; "method2"; "method3"]) eqn:Hm.
  - destruct (method_dir_returns _ _ _ _ _ Hm Hr) as (-> & _).
    exists (replace_dots (str eps)). split; [done|].
    split; [apply replace_dots_lacks|]. split; [apply replace_dots_length|].
    intros n ->. cbn [str]. apply replace_dots_id, str_int_lacks. by left.
  - unfold method_dir in Hr. by rewrite Hm in Hr.
Qed.

(** X13.  Two calls of [method_dir] that return the same directory were
    given the same method and, when [str] of neither epsilon has an
    underscore, epsilons with the same [str]; two integer epsilons that
    get the same directory are equal. *)
Theorem method_dir_injective (m1 m2 : string) (e1 e2 : number) (s1 s1' s2 s2' : fs)
    (p : Path) :
  method_dir m1 e1 s1 = (Ok p, s1') →
  method_dir m2 e2 s2 = (Ok p, s2') →
  m1 = m2
  ∧ (lacks "_" (str e1) = true → lacks "_" (str e2) = true → str e1 = str e2)
  ∧ (∀ n1 n2, e1 = PyInt n1 → e2 = PyInt n2 → n1 = n2).
Proof.
  intros H1 H2.
  destruct (in_set m1 ["method1"; "method2"; "method3"]) eqn:Hm1;
    [|unfold method_dir in H1; by rewrite Hm1 in H1].
  destruct (in_set m2 ["method1"; "method2"; "method3"]) eqn:Hm2;
    [|unfold method_dir in H2; by rewrite Hm2 in H2].
  destruct (method_dir_returns _ _ _ _ _ Hm1 H1) as (-> & _).
  destruct (method_dir_returns _ _ _ _ _ Hm2 H2) as (Heq & _).
  unfold pjoin in Heq. injection Heq as Hname ->.
  change (replace_dots (str e1) = replace_dots (str e2)) in Hname.
  split; [done|]. split.
  - intros L1 L2. by apply replace_dots_inj.
  - intros n1 n2 -> ->. cbn [str] in Hname.
    apply replace_dots_inj in Hname; [|apply str_int_lacks; by right..].
    by apply (inj pretty).
Qed.

(** *** Further properties: existence checks *)

Lemma check_paths_outside (s : fs) (pre post : list Path) (p : Path) (ok : bool) :
  Forall (λ q, PROJECT_ROOT `suffix_of` q) pre →
  ¬ PROJECT_ROOT `suffix_of` p →
  check_paths s (pre ++ p :: post)%list ok
  = (Err (ValueError ("'" +:+ path_str p +:+ "' is not in the subpath of '"
                      +:+ path_str PROJECT_ROOT +:+ "'")),
     report_line s <$> pre).
Proof.
  intros Hpre Hp. revert ok. induction Hpre as [|q pre Hq _ IH]; intros ok.
  - cbn [app check_paths]. unfold relative_to. rewrite (bool_decide_eq_false_2 _ Hp).
    by destruct (exists_ s p).
  - change ((q :: pre) ++ p :: post)%list with (q :: (pre ++ p :: post))%list.
    cbn [check_paths fmap list_fmap]. unfold relative_to at 1 2, report_line.
    rewrite (bool_decide_eq_true_2 _ Hq).
    by destruct (exists_ s q); rewrite IH.
Qed.

(** X14.  A path outside the project root ends [assert_exists] on the
    spot: the lines of the paths before it have been printed, none
    after, and the call fails with the [ValueError] of [relative_to]
    whether or not an earlier path was missing. *)
Theorem assert_exists_outside (s : fs) (pre post : list Path) (p : Path) (label : string) :
  Forall (λ q, PROJECT_ROOT `suffix_of` q) pre →
  ¬ PROJECT_ROOT `suffix_of` p →
  assert_exists s (pre ++ p :: post)%list label
  = (Err (ValueError ("'" +:+ path_str p +:+ "' is not in the subpath of '"
                      +:+ path_str PROJECT_ROOT +:+ "'")),
     Banner label :: (report_line s <$> pre)).
Proof.
  intros Hpre Hp. unfold assert_exists.
  by rewrite (check_paths_outside _ _ _ _ _ Hpre Hp).
Qed.

(** *** Further properties: cohort documents *)

(** X15.  [get_group_indices] returns only for an accepted group whose
    record in the document is an object holding indices_in_ceu_matrix,
    and then with the array [np.array(..., dtype=int)] makes of that
    field: no other record, field or group yields a result. *)
Theorem get_group_indices_returns (cohorts : gmap string json) (group : string)
    (a : int_array) :
  get_group_indices cohorts group = Ok a →
  in_set group ["case"; "control"; "test"] = true
  ∧ ∃ rec v, cohorts !! group = Some (JObj rec)
             ∧ rec !! "indices_in_ceu_matrix" = Some v
             ∧ np_array_int v = Ok a.
Proof.
  unfold get_group_indices, dict_getitem.
  destruct (in_set group ["case"; "control"; "test"]); [|done].
  destruct (cohorts !! group) as [v0|] eqn:Hc; [|done].
  cbn [negb mbind result_bind]. intros Hr. split; [done|].
  destruct v0 as [| | | | |items|rec]; cbn [contains getitem mbind result_bind] in Hr;
    try done.
  - by destruct (bool_decide _).
  - by destruct (existsb _ items).
  - exists rec. unfold dict_getitem in Hr.
    destruct (rec !! "indices_in_ceu_matrix") as [v|] eqn:Hk.
    + rewrite bool_decide_eq_true_2 in Hr by done. by exists v.
    + rewrite bool_decide_eq_false_2 in Hr; [done|]. by intros [? ?].
Qed.

(** X16.  The outcome of [get_group_indices] is settled by the record
    of the requested group alone: two documents that agree on that group
    give the same outcome, whatever their other groups; and of an object
    record only the field indices_in_ceu_matrix counts. *)
Theorem get_group_indices_local (c1 c2 : gmap string json) (group : string) :
  (c1 !! group = c2 !! group → get_group_indices c1 group = get_group_indices c2 group)
  ∧ (∀ r1 r2, c1 !! group = Some (JObj r1) → c2 !! group = Some (JObj r2) →
              r1 !! "indices_in_ceu_matrix" = r2 !! "indices_in_ceu_matrix" →
              get_group_indices c1 group = get_group_indices c2 group).
Proof.
  split.
  - intros Heq. unfold get_group_indices, dict_getitem. by rewrite Heq.
  - intros r1 r2 H1 H2 Hk.
    destruct (in_set group ["case"; "control"; "test"]) eqn:Hg.
    + rewrite (get_group_indices_object _ _ _ Hg H1), (get_group_indices_object _ _ _ Hg H2).
      by rewrite Hk.
    + unfold get_group_indices. by rewrite Hg.
Qed.

(** X17.  With an accepted group whose record is not an object,
    [get_group_indices] raises: a [TypeError] for null, a boolean or a
    number; for a list, [MissingIndices] unless the list holds the
    string indices_in_ceu_matrix, and for a string, [MissingIndices]
    unless indices_in_ceu_matrix occurs in it; in these two cases the
    subscript that follows raises a [TypeError]. *)
Theorem get_group_indices_not_object (cohorts : gmap string json) (group : string)
    (v : json) :
  in_set group ["case"; "control"; "test"] = true →
  cohorts !! group = Some v →
  (∀ rec, v ≠ JObj rec) →
  (∀ a, get_group_indices cohorts group ≠ Ok a)
  ∧ match v with
    | JArr items =>
        if existsb (λ x, match x with JStr s => String.eqb s "indices_in_ceu_matrix"
                                    | _ => false end) items
        then ∃ msg, get_group_indices cohorts group = Err (TypeError msg)
        else get_group_indices cohorts group
             = Err (MissingIndices group "indices_in_ceu_matrix")
    | JStr t =>
        if bool_decide (is_Some (index 0 "indices_in_ceu_matrix" t))
        then ∃ msg, get_group_indices cohorts group = Err (TypeError msg)
        else get_group_indices cohorts group
             = Err (MissingIndices group "indices_in_ceu_matrix")
    | _ => ∃ msg, get_group_indices cohorts group = Err (TypeError msg)
    end.
Proof.
  intros Hg Hc Hobj. unfold get_group_indices, dict_getitem. rewrite Hg, Hc.
  cbn [negb mbind result_bind].
  destruct v as [| | | |t|items|rec];
    cbn [contains getitem mbind result_bind type_name].
  - split; [done|by eexists].
  - split; [done|by eexists].
  - split; [done|by eexists].
  - split; [done|by eexists].
  - destruct (bool_decide (is_Some (index 0 "indices_in_ceu_matrix" t)));
      cbn [negb mbind result_bind]; (split; [done|]); [by eexists|done].
  - destruct (existsb _ items); cbn [negb mbind result_bind];
      (split; [done|]); [by eexists|done].
  - by destruct (Hobj rec).
Qed.

(** *** Further properties: archives *)

Lemma normalize_fields_dom (ks : list string) (t : dtype) (z out : gmap string ndarray) :
  normalize_fields ks t z = Ok out → dom out = dom z.
Proof.
  revert z. induction ks as [|k ks IH]; intros z; [by intros [= <-]|].
  cbn [normalize_fields]. unfold normalize_field.
  destruct (z !! k) as [a|] eqn:Hz; cbn [mbind result_bind mret result_ret].
  - destruct (astype a t) as [a'|]; [|done]. intros ->%IH.
    rewrite dom_insert_L. apply subseteq_union_1_L, singleton_subseteq_l.
    by apply elem_of_dom_2 in Hz.
  - apply IH.
Qed.

(** X18.  [load_region_npz] passes on the error of [np.load] when the
    archive cannot be read; and the record it returns has exactly the
    field names of the archive: it neither adds nor drops a field. *)
Theorem load_region_npz_fields (path : Path) :
  (∀ e, np_load path = Err e → load_region_npz path = Err e)
  ∧ (∀ out, load_region_npz path = Ok out →
            ∃ z, np_load path = Ok z ∧ dom out = dom z).
Proof.
  split.
  - intros e He. unfold load_region_npz. by rewrite He.
  - intros out. destruct (np_load path) as [z|e] eqn:Hz.
    + rewrite (load_region_npz_steps _ _ Hz).
      destruct (normalize_fields object_keys np_object z) as [o1|] eqn:H1; [|done].
      destruct (normalize_fields ["positions"] np_int64 o1) as [o2|] eqn:H2; [|done].
      intros H3. exists z. split; [done|].
      by rewrite (normalize_fields_dom _ _ _ _ H3), (normalize_fields_dom _ _ _ _ H2),
        (normalize_fields_dom _ _ _ _ H1).
    + unfold load_region_npz. by rewrite Hz.
Qed.
End dataio.

(** ** The claims on the example data *)

Lemma get_group_indices_spec_witness :
  get_group_indices (λ _, Err (TypeError "")) ∅ "cases" = Err InvalidGroup
  ∧ get_group_indices (λ _, Err (TypeError ""))
      {[ "test" := JObj {[ "indices_in_ceu_matrix" := JArr [JInt 4; JInt 1] ]} ]} "test"
    = Ok (array1d [4; 1]%Z).
Proof.
  split.
  - apply (proj1 (get_group_indices_spec (λ _, Err (TypeError "")) ∅ "cases")).
    reflexivity.
  - destruct (get_group_indices_spec (λ _, Err (TypeError ""))
      {[ "test" := JObj {[ "indices_in_ceu_matrix" := JArr [JInt 4; JInt 1] ]} ]} "test")
      as (_ & H & _).
    destruct (H eq_refl {[ "indices_in_ceu_matrix" := JArr [JInt 4; JInt 1] ]})
      as (_ & _ & Hints); [vm_compute; reflexivity|].
    apply (Hints [4; 1]%Z); [repeat constructor; lia|vm_compute; reflexivity].
Defined.

Lemma method_dir_path_witness :
  in_set "method1" ["method1"; "method2"; "method3"] = true
  ∧ demo_float_str float_0_1 = "0.1"
  ∧ blocked demo_fs (DERIVED_DIR demo_root // "method1" // "eps_0_1") = false
  ∧ ∃ s', method_dir demo_float_str demo_root "method1" (PyFloat float_0_1) demo_fs
          = (Ok (DERIVED_DIR demo_root // "method1" // "eps_0_1"), s').
Proof.
  split; [reflexivity|]. split; [reflexivity|]. split; [reflexivity|].
  apply (proj1 (proj2 (proj2 (method_dir_path demo_float_str demo_root "method1"
                                (PyFloat float_0_1) demo_fs eq_refl))));
    reflexivity.
Defined.

Lemma genotype_path_spec_witness :
  genotype_path demo_root "ceu" 2
  = Ok (RAW_GENOTYPES_DIR demo_root // "genotypes_chr2_CEU_r27_nr.b36_fwd.txt.gz")
  ∧ genotype_path demo_root "JPT" 2 = Err InvalidPopulation
  ∧ genotype_path demo_root "Yri" 10 = genotype_path demo_root "yRI" 10.
Proof.
  split; [|split].
  - apply (proj1 (genotype_path_spec demo_root "ceu" 2)). reflexivity.
  - apply (proj1 (proj2 (genotype_path_spec demo_root "JPT" 2))). reflexivity.
  - apply (proj2 (proj2 (genotype_path_spec demo_root "yRI" 10))). reflexivity.
Defined.

Lemma find_project_root_nearest_witness :
  find_project_root nested_fs (demo_root // "a" // "b" // "c") = Ok demo_root.
Proof.
  apply (proj2 (proj2 (find_project_root_nearest nested_fs (demo_root // "a" // "b" // "c")))
           demo_root "a" "b" "c"); reflexivity.
Defined.

Lemma load_region_npz_spec_witness :
  demo_np_load demo_archive_path = Ok demo_archive
  ∧ ∃ out, load_region_npz int_astype demo_np_load demo_archive_path = Ok out.
Proof.
  split; [reflexivity|].
  apply (proj2 (proj2 (load_region_npz_spec int_astype demo_np_load demo_archive_path
                         demo_archive eq_refl))).
  intros k t a _ _. reflexivity.
Defined.

(** On integer arrays the loader lets a genotype of 300 through and
    hands it back wrapped to 8 bits; [chrom] is kept as it is and no
    other field appears. *)
Example load_region_npz_wraps :
  load_region_npz int_astype demo_np_load demo_archive_path
  = Ok {[ "G" := {| nd_dtype := np_int8; nd_data := [0; 2; -1; 44]%Z |};
          "positions" := {| nd_dtype := np_int64; nd_data := [101; 205]%Z |};
          "chrom" := {| nd_dtype := np_int64; nd_data := [2]%Z |} ]}.
Proof. vm_compute. reflexivity. Qed.

Lemma ensure_dirs_idempotent_witness :
  Forall (λ d, blocked populated_fs d = false) (catalog demo_root)
  ∧ ∃ s', ensure_dirs demo_root populated_fs = (Ok (), s')
          ∧ (∀ d q, d ∈ catalog demo_root → q `suffix_of` d → is_dir s' q = true)
          ∧ only_dirs_added populated_fs s'
          ∧ ensure_dirs demo_root s' = (Ok (), s').
Proof.
  assert (Forall (λ d, blocked populated_fs d = false) (catalog demo_root)) as H
    by (repeat constructor).
  split; [exact H|]. exact (ensure_dirs_idempotent demo_root populated_fs H).
Defined.

(** The file found in the genotype directory is still there afterwards. *)
Example ensure_dirs_keeps_files :
  snd (ensure_dirs demo_root populated_fs) !! (RAW_GENOTYPES_DIR demo_root // "notes.txt")
  = Some File.
Proof. vm_compute. reflexivity. Qed.

(** C6 as stated fails where a regular file is in the way: with a file
    named [data] in the project root the first [mkdir] raises
    [NotADirectoryError] and no catalog directory is made. *)
Lemma ensure_dirs_blocked_counterexample :
  fst (ensure_dirs demo_root data_is_file_fs)
  = Err (OSError ENOTDIR (RAW_GENOTYPES_DIR demo_root))
  ∧ is_dir (snd (ensure_dirs demo_root data_is_file_fs)) (RAW_GENOTYPES_DIR demo_root) = false.
Proof. split; vm_compute; reflexivity. Qed.

Lemma method_dir_validates_first_witness :
  method_dir demo_float_str demo_root "method4" (PyInt 1) demo_fs = (Err InvalidMethod, demo_fs)
  ∧ ∃ s', method_dir demo_float_str demo_root "method2" (PyInt 1) demo_fs
          = (Ok (DERIVED_DIR demo_root // "method2" // "eps_1"), s')
          ∧ ∀ q, q `suffix_of` DERIVED_DIR demo_root // "method2" // "eps_1" →
                 is_dir s' q = true.
Proof.
  split.
  - apply (proj1 (method_dir_validates_first demo_float_str demo_root "method4"
                    (PyInt 1) demo_fs)).
    reflexivity.
  - apply (proj2 (proj2 (method_dir_validates_first demo_float_str demo_root "method2"
                           (PyInt 1) demo_fs) eq_refl)).
    reflexivity.
Defined.

Lemma assert_exists_under_root_witness :
  Forall (λ p, demo_root `suffix_of` p) [demo_root // ".git"; demo_root // "data"]
  ∧ assert_exists demo_root demo_fs [demo_root // ".git"; demo_root // "data"] "CHECK"
    = (Err MissingRequiredFiles, [Banner "CHECK"; Present [".git"]; Missing ["data"]]).
Proof.
  assert (Forall (λ p, demo_root `suffix_of` p) [demo_root // ".git"; demo_root // "data"])
    as H by (repeat constructor; by eexists [_]).
  split; [exact H|].
  exact (proj1 (assert_exists_under_root demo_root demo_fs
                  [demo_root // ".git"; demo_root // "data"] "CHECK" H)).
Defined.

(** C8 as stated fails on a path outside the project root: [/etc/hosts]
    exists, yet the call ends with the [ValueError] of [relative_to]. *)
Lemma assert_exists_outside_counterexample :
  forallb (exists_ outside_fs) [["hosts"; "etc"]] = true
  ∧ assert_exists demo_root outside_fs [["hosts"; "etc"]] "CHECK"
    = (Err (ValueError "'/etc/hosts' is not in the subpath of '/home/proj'"),
       [Banner "CHECK"]).
Proof. split; vm_compute; reflexivity. Qed.

Lemma get_group_indices_missing_group_witness :
  in_set "control" ["case"; "control"; "test"] = true
  ∧ ({[ "case" := JObj ∅ ]} : gmap string json) !! "control" = None
  ∧ get_group_indices (λ _, Err (TypeError "")) {[ "case" := JObj ∅ ]} "control"
    = Err (KeyError "control").
Proof.
  split; [reflexivity|]. split; [vm_compute; reflexivity|].
  apply (get_group_indices_missing_group (λ _, Err (TypeError ""))
           {[ "case" := JObj ∅ ]} "control"); [reflexivity|vm_compute; reflexivity].
Defined.

Lemma method_dir_any_eps_witness :
  in_set "method3" ["method1"; "method2"; "method3"] = true
  ∧ (∃ s', method_dir demo_float_str demo_root "method3" (PyInt 0) demo_fs
           = (Ok (DERIVED_DIR demo_root // "method3" // "eps_0"), s')
           ∧ is_dir s' (DERIVED_DIR demo_root // "method3" // "eps_0") = true)
  ∧ (∃ s', method_dir demo_float_str demo_root "method3" (PyInt (-2)) demo_fs
           = (Ok (DERIVED_DIR demo_root // "method3" // "eps_-2"), s')
           ∧ is_dir s' (DERIVED_DIR demo_root // "method3" // "eps_-2") = true).
Proof.
  split; [reflexivity|]. split.
  - apply (proj1 (method_dir_any_eps demo_float_str demo_root "method3" (PyInt 0)
                    demo_fs eq_refl)).
    reflexivity.
  - apply (proj1 (method_dir_any_eps demo_float_str demo_root "method3" (PyInt (-2))
                    demo_fs eq_refl)).
    reflexivity.
Defined.

(** ** Archives of integer arrays *)

Lemma normalize_field_int (k : string) (t : dtype) (z : gmap string int_ndarray) :
  normalize_field int_astype k t z = Ok (alter (int_cast t) k z).
Proof.
  unfold normalize_field. destruct (z !! k) as [a|] eqn:Hz; cbn; f_equal;
    apply map_eq; intros j; rewrite lookup_alter; destruct (decide (k = j)) as [<-|Hne].
  - by rewrite lookup_insert_eq, Hz.
  - by rewrite lookup_insert_ne.
  - by rewrite Hz.
  - done.
Qed.

Lemma normalize_fields_int (ks : list string) (t : dtype) (z : gmap string int_ndarray) :
  normalize_fields int_astype ks t z = Ok (foldl (λ m k, alter (int_cast t) k m) z ks).
Proof.
  revert z. induction ks as [|k ks IH]; intros z; [done|].
  cbn [normalize_fields foldl]. rewrite normalize_field_int. apply IH.
Qed.

Lemma lookup_foldl_alter {A} (f : A → A) (ks : list string) (z : gmap string A)
    (k : string) :
  NoDup ks →
  foldl (λ m j, alter f j m) z ks !! k
  = if bool_decide (k ∈ ks) then f <$> z !! k else z !! k.
Proof.
  intros Hnd. revert z. induction Hnd as [|k0 ks Hk0 _ IH]; intros z; [done|].
  cbn [foldl]. rewrite IH, lookup_alter.
  destruct (decide (k0 = k)) as [<-|Hne].
  - rewrite (bool_decide_eq_false_2 _ Hk0). by rewrite bool_decide_eq_true_2 by left.
  - rewrite (bool_decide_ext (k ∈ k0 :: ks) (k ∈ ks)); [done|].
    rewrite elem_of_cons. split; [intros [?|?]; [congruence|done]|by right].
Qed.

(** On integer arrays the loader always returns, field by field. *)
Lemma load_region_npz_int (np_load : Path → result (gmap string int_ndarray))
    (path : Path) (z : gmap string int_ndarray) :
  np_load path = Ok z →
  ∃ out, load_region_npz int_astype np_load path = Ok out
         ∧ ∀ k, out !! k = int_loaded k <$> z !! k.
Proof.
  intros Hz. eexists. split.
  - unfold load_region_npz. rewrite Hz. cbn [mbind result_bind mret result_ret].
    rewrite normalize_fields_int. cbn [mbind result_bind mret result_ret].
    rewrite normalize_field_int. cbn [mbind result_bind mret result_ret].
    rewrite normalize_field_int. reflexivity.
  - intros k.
    assert (NoDup object_keys) as Hnd by (by apply (bool_decide_unpack _)).
    destruct (decide (k = "G")) as [->|HG].
    { rewrite lookup_alter_eq, lookup_alter_ne by done.
      rewrite (lookup_foldl_alter _ _ _ _ Hnd).
      rewrite bool_decide_eq_false_2 by (by apply (bool_decide_unpack _)).
      by destruct (z !! "G"). }
    rewrite lookup_alter_ne by done.
    destruct (decide (k = "positions")) as [->|HP].
    { rewrite lookup_alter_eq, (lookup_foldl_alter _ _ _ _ Hnd).
      rewrite bool_decide_eq_false_2 by (by apply (bool_decide_unpack _)).
      by destruct (z !! "positions"). }
    rewrite lookup_alter_ne by done. rewrite (lookup_foldl_alter _ _ _ _ Hnd).
    unfold int_loaded, target_dtype, in_set.
    destruct (bool_decide (k ∈ object_keys)); [done|].
    rewrite (proj2 (String.eqb_neq _ _) HP), (proj2 (String.eqb_neq _ _) HG).
    by destruct (z !! k).
Qed.

Lemma wrap_range (w z : Z) :
  (0 < w)%Z → (- 2 ^ (w - 1) ≤ wrap w z < 2 ^ (w - 1))%Z.
Proof.
  intros Hw. unfold wrap.
  assert (2 ^ w = 2 * 2 ^ (w - 1))%Z as Hpow.
  { rewrite <- Z.pow_succ_r by lia. f_equal. lia. }
  pose proof (Z.pow_pos_nonneg 2 (w - 1)).
  pose proof (Z.mod_pos_bound (z + 2 ^ (w - 1)) (2 ^ w)). lia.
Qed.

Lemma wrap_id (w z : Z) :
  (0 < w)%Z → (- 2 ^ (w - 1) ≤ z < 2 ^ (w - 1))%Z → wrap w z = z.
Proof.
  intros Hw Hz. unfold wrap.
  assert (2 ^ w = 2 * 2 ^ (w - 1))%Z as Hpow.
  { rewrite <- Z.pow_succ_r by lia. f_equal. lia. }
  rewrite Z.mod_small by lia. lia.
Qed.

(** X19.  On an archive of arrays of an integer dtype
    [load_region_npz] always returns; the genotype matrix comes back as
    int8 with as many elements, each within [-128, 128), and a matrix
    whose values were all in that range, the dosages -1, 0, 1, 2 among
    them, comes back with the same values. *)
Theorem load_region_npz_int_genotypes (np_load : Path → result (gmap string int_ndarray))
    (path : Path) (z : gmap string int_ndarray) (g : int_ndarray) :
  np_load path = Ok z →
  map_Forall (λ _ a, nd_dtype a ≠ np_object) z →
  z !! "G" = Some g →
  ∃ out g', load_region_npz int_astype np_load path = Ok out
            ∧ out !! "G" = Some g'
            ∧ nd_dtype g' = np_int8
            ∧ List.length (nd_data g') = List.length (nd_data g)
            ∧ Forall (λ v, -128 ≤ v < 128)%Z (nd_data g')
            ∧ (Forall (λ v, -128 ≤ v < 128)%Z (nd_data g) → nd_data g' = nd_data g).
Proof.
  intros Hz _ Hg. destruct (load_region_npz_int np_load path z Hz) as (out & Hr & Hl).
  exists out, (int_cast np_int8 g). split; [done|].
  split; [by rewrite Hl, Hg|]. split; [done|]. cbn [int_cast nd_data].
  split; [by rewrite length_fmap|]. split.
  - apply Forall_fmap, Forall_forall. intros v _. apply (wrap_range 8 v). lia.
  - intros Hin. induction Hin as [|v vs Hv _ IH]; [done|].
    cbn [fmap list_fmap]. fold (wrap 8 <$> vs). rewrite IH.
    by rewrite (wrap_id 8 v) by (done || lia).
Qed.

Lemma int_loaded_idemp (k : string) (a : int_ndarray) :
  int_loaded k (int_loaded k a) = int_loaded k a.
Proof.
  unfold int_loaded. destruct (target_dtype k) as [[]|]; [done| | |done];
    unfold int_cast; cbn [nd_data]; f_equal; rewrite <- list_fmap_compose;
    apply list_fmap_ext; intros _ v _; cbn.
  - apply wrap_id; [lia|]. apply (wrap_range 64 v). lia.
  - apply wrap_id; [lia|]. apply (wrap_range 8 v). lia.
Qed.

(** X20.  On arrays of an integer dtype the normalisation is
    idempotent: loading an archive that holds a record
    [load_region_npz] returned gives that record back. *)
Theorem load_region_npz_int_idempotent
    (np_load np_load' : Path → result (gmap string int_ndarray))
    (path path' : Path) (z out : gmap string int_ndarray) :
  np_load path = Ok z →
  map_Forall (λ _ a, nd_dtype a ≠ np_object) z →
  load_region_npz int_astype np_load path = Ok out →
  np_load' path' = Ok out →
  load_region_npz int_astype np_load' path' = Ok out.
Proof.
  intros Hz _ Hr Hz'.
  destruct (load_region_npz_int np_load path z Hz) as (out1 & Hr1 & Hl1).
  assert (out1 = out) as -> by congruence.
  destruct (load_region_npz_int np_load' path' out Hz') as (out2 & Hr2 & Hl2).
  rewrite Hr2. f_equal. apply map_eq. intros k. rewrite Hl2, Hl1.
  destruct (z !! k); [|done]. cbn. by rewrite int_loaded_idemp.
Qed.

(** ** The further properties on the example data *)

Lemma ready_fs_ensure_dirs : ensure_dirs demo_root ready_fs = (Ok (), ready_fs).
Proof.
  apply (for_each_mkdir_fixed (catalog demo_root) ready_fs).
  repeat constructor; vm_compute; reflexivity.
Defined.

Lemma ready_fs_method_dir :
  method_dir demo_float_str demo_root "method1" (PyInt 1) ready_fs
  = (Ok (DERIVED_DIR demo_root // "method1" // "eps_1"), ready_fs).
Proof.
  apply (method_dir_existing demo_float_str demo_root "method1" (PyInt 1) ready_fs);
    vm_compute; reflexivity.
Defined.

Lemma find_project_root_stable_witness :
  find_project_root nested_fs (demo_root // "a" // "b" // "c") = Ok demo_root
  ∧ find_project_root nested_fs (demo_root // "a") = Ok demo_root.
Proof.
  assert (find_project_root nested_fs (demo_root // "a" // "b" // "c") = Ok demo_root) as H
    by (vm_compute; reflexivity).
  split; [exact H|].
  apply (proj2 (proj2 (find_project_root_stable nested_fs _ demo_root H))).
  - by eexists [_].
  - by eexists [_; _].
Defined.

Lemma ensure_dirs_outcome_witness :
  Forall (λ d, blocked demo_fs d = false) (catalog demo_root)
  ∧ ∃ s', ensure_dirs demo_root demo_fs = (Ok (), s').
Proof.
  assert (Forall (λ d, blocked demo_fs d = false) (catalog demo_root)) as H
    by (repeat constructor).
  split; [exact H|]. exact (proj2 (proj1 (ensure_dirs_outcome demo_root demo_fs)) H).
Defined.

Lemma method_dir_idempotent_witness :
  method_dir demo_float_str demo_root "method1" (PyInt 1) ready_fs
  = (Ok (DERIVED_DIR demo_root // "method1" // "eps_1"), ready_fs).
Proof.
  exact (method_dir_idempotent demo_float_str demo_root "method1" (PyInt 1) ready_fs
           ready_fs _ ready_fs_method_dir).
Defined.

Lemma ensure_dirs_then_method_dir_witness :
  ensure_dirs demo_root ready_fs = (Ok (), ready_fs)
  ∧ method_dir demo_float_str demo_root "method2" (PyFloat float_0_1) ready_fs
    = match ready_fs !! (DERIVED_DIR demo_root // "method2" // "eps_0_1") with
      | None => (Ok (DERIVED_DIR demo_root // "method2" // "eps_0_1"),
                 <[DERIVED_DIR demo_root // "method2" // "eps_0_1" := Dir]> ready_fs)
      | Some Dir => (Ok (DERIVED_DIR demo_root // "method2" // "eps_0_1"), ready_fs)
      | Some File => (Err (OSError EEXIST (DERIVED_DIR demo_root // "method2" // "eps_0_1")),
                      ready_fs)
      end.
Proof.
  split; [exact ready_fs_ensure_dirs|].
  exact (ensure_dirs_then_method_dir demo_float_str demo_root "method2"
           (PyFloat float_0_1) ready_fs ready_fs ready_fs_ensure_dirs eq_refl).
Defined.

Lemma ensure_dirs_then_assert_exists_witness :
  ensure_dirs demo_root ready_fs = (Ok (), ready_fs)
  ∧ assert_exists demo_root ready_fs (catalog demo_root) "CHECK"
    = (Ok (), Banner "CHECK"
              :: ((λ d, Present (take (List.length d - List.length demo_root)%nat d))
                    <$> catalog demo_root)).
Proof.
  split; [exact ready_fs_ensure_dirs|].
  exact (ensure_dirs_then_assert_exists demo_root ready_fs ready_fs "CHECK"
           ready_fs_ensure_dirs).
Defined.

Lemma genotype_path_injective_witness :
  genotype_path demo_root "CEU" 7 = genotype_path demo_root "ceu" 7
  ∧ (genotype_path demo_root "ceu" 7 = genotype_path demo_root "Ceu" 7 →
     upper "ceu" = upper "Ceu" ∧ 7%Z = 7%Z).
Proof.
  split.
  - exact (proj1 (genotype_path_injective demo_root "ceu" "Ceu" 7 7
                    (RAW_GENOTYPES_DIR demo_root // "genotypes_chr7_CEU_r27_nr.b36_fwd.txt.gz"))).
  - intros _.
    apply (proj2 (genotype_path_injective demo_root "ceu" "Ceu" 7 7
                    (RAW_GENOTYPES_DIR demo_root // "genotypes_chr7_CEU_r27_nr.b36_fwd.txt.gz")));
      reflexivity.
Defined.

Lemma region_paths_injective_witness :
  lacks "/" "CEU_chr2_5Mb" = true
  ∧ (control_haplotypes_path demo_root "CEU_chr2_5Mb" true
     = control_haplotypes_path demo_root "CEU_chr2_5Mb" false →
     "CEU_chr2_5Mb" = "CEU_chr2_5Mb" ∧ true = false).
Proof.
  split; [reflexivity|].
  exact (proj2 (proj2 (region_paths_injective demo_root "CEU_chr2_5Mb" "CEU_chr2_5Mb"
                         true false eq_refl eq_refl))).
Defined.

Lemma aligned_region_npz_path_injective_witness :
  aligned_region_npz_path demo_root "ceu" "chr2_5Mb" "yri"
  = aligned_region_npz_path demo_root "Ceu" "chr2_5Mb" "YRI"
  ∧ (aligned_region_npz_path demo_root "ceu" "chr2_5Mb" "yri"
     = aligned_region_npz_path demo_root "yri" "chr2_5Mb" "ceu" →
     upper "ceu" = upper "yri").
Proof.
  split.
  - apply (proj2 (aligned_region_npz_path_injective demo_root "ceu" "chr2_5Mb" "yri"
                    "Ceu" "chr2_5Mb" "YRI" eq_refl eq_refl eq_refl eq_refl eq_refl eq_refl)).
    repeat split; reflexivity.
  - intros H.
    exact (proj1 (proj1 (aligned_region_npz_path_injective demo_root "ceu" "chr2_5Mb" "yri"
                           "yri" "chr2_5Mb" "ceu" eq_refl eq_refl eq_refl eq_refl
                           eq_refl eq_refl) H)).
Defined.

Lemma helper_paths_under_data_witness :
  DATA_DIR demo_root `suffix_of` blocks_json_path demo_root "CEU_chr10_1Mb"
  ∧ is_ok (relative_to (blocks_json_path demo_root "CEU_chr10_1Mb") demo_root) = true.
Proof.
  destruct (helper_paths_under_data demo_float_str demo_root "CEU_chr10_1Mb" "chr10_1Mb"
              "CEU" "YRI" true eq_refl eq_refl eq_refl eq_refl) as [H _].
  exact (proj1 (Forall_forall _ _) H (blocks_json_path demo_root "CEU_chr10_1Mb")
           ltac:(repeat first [by left|right])).
Defined.

Lemma method_dir_name_witness :
  ∃ enc, DERIVED_DIR demo_root // "method1" // "eps_1"
         = DERIVED_DIR demo_root // "method1" // ("eps_" +:+ enc)
         ∧ lacks "." enc = true
         ∧ String.length enc = String.length (str demo_float_str (PyInt 1))
         ∧ ∀ n, PyInt 1 = PyInt n → enc = str_int n.
Proof.
  exact (method_dir_name demo_float_str demo_root "method1" (PyInt 1) ready_fs ready_fs
           _ ready_fs_method_dir).
Defined.

Lemma method_dir_injective_witness :
  "method1" = "method1"
  ∧ (lacks "_" (str demo_float_str (PyInt 1)) = true →
     lacks "_" (str demo_float_str (PyInt 1)) = true →
     str demo_float_str (PyInt 1) = str demo_float_str (PyInt 1))
  ∧ (∀ n1 n2, PyInt 1 = PyInt n1 → PyInt 1 = PyInt n2 → n1 = n2).
Proof.
  exact (method_dir_injective demo_float_str demo_root "method1" "method1" (PyInt 1) (PyInt 1)
           ready_fs ready_fs ready_fs ready_fs _ ready_fs_method_dir ready_fs_method_dir).
Defined.

Lemma assert_exists_outside_witness :
  assert_exists demo_root outside_fs
    [demo_root // "data"; ["hosts"; "etc"]; demo_root // ".git"] "CHECK"
  = (Err (ValueError ("'" +:+ path_str ["hosts"; "etc"] +:+ "' is not in the subpath of '"
                      +:+ path_str demo_root +:+ "'")),
     [Banner "CHECK"; Missing ["data"]]).
Proof.
  apply (assert_exists_outside demo_root outside_fs [demo_root // "data"] [demo_root // ".git"]
           ["hosts"; "etc"] "CHECK").
  - repeat constructor. by eexists [_].
  - by apply (bool_decide_unpack _).
Defined.

Lemma get_group_indices_returns_witness :
  in_set "case" ["case"; "control"; "test"] = true
  ∧ ∃ rec v,
      ({[ "case" := JObj {[ "indices_in_ceu_matrix" := JArr [JInt 2; JInt 5] ]} ]}
         : gmap string json) !! "case" = Some (JObj rec)
      ∧ rec !! "indices_in_ceu_matrix" = Some v
      ∧ np_array_int (λ _, Err (TypeError "")) v = Ok (array1d [2; 5]%Z).
Proof.
  apply (get_group_indices_returns (λ _, Err (TypeError ""))
           {[ "case" := JObj {[ "indices_in_ceu_matrix" := JArr [JInt 2; JInt 5] ]} ]}
           "case" (array1d [2; 5]%Z)).
  vm_compute. reflexivity.
Defined.

Lemma get_group_indices_local_witness :
  get_group_indices (λ _, Err (TypeError ""))
    {[ "test" := JObj {[ "indices_in_ceu_matrix" := JArr [JInt 1] ]} ]} "test"
  = get_group_indices (λ _, Err (TypeError ""))
      (<[ "case" := JNull ]> {[ "test" := JObj {[ "indices_in_ceu_matrix" := JArr [JInt 1] ]} ]})
      "test".
Proof.
  apply (proj1 (get_group_indices_local (λ _, Err (TypeError ""))
                  {[ "test" := JObj {[ "indices_in_ceu_matrix" := JArr [JInt 1] ]} ]}
                  (<[ "case" := JNull ]>
                     {[ "test" := JObj {[ "indices_in_ceu_matrix" := JArr [JInt 1] ]} ]})
                  "test")).
  vm_compute. reflexivity.
Defined.

Lemma get_group_indices_not_object_witness :
  get_group_indices (λ _, Err (TypeError "")) {[ "control" := JStr "s1,s2" ]} "control"
  = Err (MissingIndices "control" "indices_in_ceu_matrix").
Proof.
  assert (({[ "control" := JStr "s1,s2" ]} : gmap string json) !! "control"
          = Some (JStr "s1,s2")) as H by (vm_compute; reflexivity).
  exact (proj2 (get_group_indices_not_object (λ _, Err (TypeError ""))
                  {[ "control" := JStr "s1,s2" ]} "control" (JStr "s1,s2")
                  eq_refl H ltac:(discriminate))).
Defined.

Lemma load_region_npz_fields_witness :
  load_region_npz int_astype demo_np_load demo_root = Err (OSError ENOENT demo_root).
Proof.
  apply (proj1 (load_region_npz_fields int_astype demo_np_load demo_root)).
  reflexivity.
Defined.

Lemma demo_archive_integer : map_Forall (λ _ a, nd_dtype a ≠ np_object) demo_archive.
Proof.
  unfold demo_archive. repeat (apply map_Forall_insert_2; [discriminate|]).
  apply map_Forall_empty.
Defined.

Lemma load_region_npz_int_genotypes_witness :
  ∃ out g', load_region_npz int_astype demo_np_load demo_archive_path = Ok out
            ∧ out !! "G" = Some g'
            ∧ nd_dtype g' = np_int8
            ∧ List.length (nd_data g') = 4%nat
            ∧ Forall (λ v, -128 ≤ v < 128)%Z (nd_data g')
            ∧ (Forall (λ v, -128 ≤ v < 128)%Z [0; 2; -1; 300]%Z →
               nd_data g' = [0; 2; -1; 300]%Z).
Proof.
  apply (load_region_npz_int_genotypes demo_np_load demo_archive_path demo_archive
           {| nd_dtype := np_int64; nd_data := [0; 2; -1; 300]%Z |});
    [vm_compute; reflexivity|exact demo_archive_integer|vm_compute; reflexivity].
Defined.

Lemma load_region_npz_int_idempotent_witness :
  load_region_npz int_astype
    (λ _, Ok {[ "G" := {| nd_dtype := np_int8; nd_data := [0; 2; -1; 44]%Z |};
                "positions" := {| nd_dtype := np_int64; nd_data := [101; 205]%Z |};
                "chrom" := {| nd_dtype := np_int64; nd_data := [2]%Z |} ]})
    demo_archive_path
  = Ok {[ "G" := {| nd_dtype := np_int8; nd_data := [0; 2; -1; 44]%Z |};
          "positions" := {| nd_dtype := np_int64; nd_data := [101; 205]%Z |};
          "chrom" := {| nd_dtype := np_int64; nd_data := [2]%Z |} ]}.
Proof.
  apply (load_region_npz_int_idempotent demo_np_load _ demo_archive_path demo_archive_path
           demo_archive).
  - vm_compute. reflexivity.
  - exact demo_archive_integer.
  - vm_compute. reflexivity.
  - reflexivity.
Defined.
